(** * Fastcon BLE controller: protocol codec, command queue, transmission
      scheduler and pairing state machine.

    Shallow embedding of [components/fastcon/fastcon_controller.cpp] (and of
    the extended controller with the pairing mode that ships with
    [OPTIMIZATION.md]).  Unsigned machine integers are integers of [Z] whose
    wrap-around is written out; byte vectors are lists; [millis()] and the
    answers of the radio are inputs of each call. *)

From Stdlib Require Import ZArith List Bool Lia Permutation.
From Stdlib Require Import Floats.SpecFloat.
Import ListNotations.
Open Scope Z_scope.

(** ** Machine integers *)

(** Conversion to [uint8_t]. *)
Definition wrap8 (z : Z) : Z := z mod 256.

(** Conversion to [uint32_t] (the type of [millis()] and of light ids). *)
Definition wrap32 (z : Z) : Z := z mod 4294967296.

(** The values a [uint8_t] holds. *)
Definition is_u8 (z : Z) : Prop := 0 <= z < 256.

(** A [std::vector<uint8_t>] / [std::array<uint8_t, N>]. *)
Definition bytes := list Z.

Definition all_u8 (l : bytes) : Prop := Forall is_u8 l.

(** [a[i & 3]] on a four-byte array ([DEFAULT_ENCRYPT_KEY], [mesh_key_]). *)
Definition key_at (k : bytes) (i : nat) : Z := nth (Nat.land i 3) k 0.

(** [f] applied to every element together with its index, counted from [i]. *)
Fixpoint mapi_from {A B : Type} (f : nat -> A -> B) (i : nat) (l : list A) : list B :=
  match l with
  | [] => []
  | x :: rest => f i x :: mapi_from f (S i) rest
  end.

(** [v[i] = x] on a vector (no effect out of range; every use below is within
    the bounds the source allocates). *)
Fixpoint store {A : Type} (i : nat) (x : A) (v : list A) : list A :=
  match v, i with
  | [], _ => []
  | _ :: rest, O => x :: rest
  | y :: rest, S j => y :: store j x rest
  end.

(** ** Packet codec: [FastconController::generate_command] *)

(** [static uint8_t sequence]: the value after [body[1] = sequence++;
    if (sequence >= 255) sequence = 1;]. *)
Definition next_sequence (sequence : Z) : Z :=
  let s := wrap8 (sequence + 1) in
  if 255 <=? s then 1 else s.

(** [body[0] = (i2 & 0b1111) | ((n & 0b111) << 4) | (forward ? 0x80 : 0)]
    with [uint8_t i2 = (light_id_ / 256)]. *)
Definition header_byte0 (n light_id_ : Z) (forward : bool) : Z :=
  let i2 := wrap8 (light_id_ / 256) in
  wrap8 (Z.lor (Z.lor (Z.land i2 15) (Z.shiftl (Z.land n 7) 4))
               (if forward then 128 else 0)).

(** The body after the header is constructed and the data copied: a vector
    of [data.size() + 4] bytes, byte 3 still zero. *)
Definition command_body (mesh_key_ : bytes) (sequence n light_id_ : Z)
    (data : bytes) (forward : bool) : bytes :=
  [header_byte0 n light_id_ forward; sequence; nth 3 mesh_key_ 0; 0] ++ data.

(** The checksum loop, started at index [i] with the running [checksum]. *)
Fixpoint checksum_from (i : nat) (body : bytes) (checksum : Z) : Z :=
  match body with
  | [] => checksum
  | b :: rest =>
      checksum_from (S i) rest
        (if Nat.eqb i 3 then checksum else wrap8 (checksum + b))
  end.

Definition checksum_of (body : bytes) : Z := checksum_from 0 body 0.

Section Protocol.

(** Constants and the RF framing step of [protocol.h]. *)
Variable DEFAULT_ENCRYPT_KEY : bytes.
Variable DEFAULT_BLE_FASTCON_ADDRESS : bytes.
Variable prepare_payload : bytes -> bytes -> bytes.

(** The two encryption loops: bytes 0..3 with [DEFAULT_ENCRYPT_KEY[i & 3]],
    byte [4 + i] with [mesh_key_[i & 3]]. *)
Definition encrypt_byte (mesh_key_ : bytes) (i : nat) (b : Z) : Z :=
  if Nat.ltb i 4
  then wrap8 (Z.lxor (key_at DEFAULT_ENCRYPT_KEY i) b)
  else wrap8 (Z.lxor (key_at mesh_key_ (i - 4)) b).

Definition encrypt_body (mesh_key_ : bytes) (body : bytes) : bytes :=
  mapi_from (encrypt_byte mesh_key_) 0 body.

(** The encrypted body that [generate_command] hands to [prepare_payload],
    and the next value of the static [sequence]. *)
Definition generate_command_body (mesh_key_ : bytes) (sequence n light_id_ : Z)
    (data : bytes) (forward : bool) : bytes * Z :=
  let body := command_body mesh_key_ sequence n light_id_ data forward in
  let body := store 3 (checksum_of body) body in
  (encrypt_body mesh_key_ body, next_sequence sequence).

(** [FastconController::generate_command]: the frame it returns, and the
    next value of [sequence]. *)
Definition generate_command (mesh_key_ : bytes) (sequence n light_id_ : Z)
    (data : bytes) (forward : bool) : bytes * Z :=
  let '(body, sequence') :=
    generate_command_body mesh_key_ sequence n light_id_ data forward in
  (prepare_payload DEFAULT_BLE_FASTCON_ADDRESS body, sequence').

(** [FastconController::single_control].  [result_data] has 12 bytes;
    copying more than 10 bytes of light data writes past its end, which is
    undefined: [None]. *)
Definition inner_payload (light_id_ : Z) (light_data : bytes) : option bytes :=
  if (10 <? Z.of_nat (length light_data))%Z then None
  else
    let size1 := Z.of_nat (length light_data) + 1 in
    Some ([wrap8 (Z.lor 2 (Z.shiftl (Z.land 268435455 size1) 4));
           wrap8 light_id_]
          ++ light_data
          ++ repeat 0 (10 - length light_data)).

Definition single_control (mesh_key_ : bytes) (sequence light_id_ : Z)
    (light_data : bytes) : option (bytes * Z) :=
  match inner_payload light_id_ light_data with
  | None => None
  | Some result_data =>
      Some (generate_command mesh_key_ sequence 5 light_id_ result_data true)
  end.

End Protocol.

(** ** Command queue and transmission scheduler *)

(** [struct Command]. *)
Record Command : Type := mkCommand {
  cmd_data : bytes;
  cmd_timestamp : Z;
  cmd_retries : Z
}.

(** [Command::MAX_RETRIES]. *)
Definition MAX_RETRIES : Z := 3.

Inductive AdvertiseState : Type := IDLE | ADVERTISING | GAP.

(** The members of [FastconController] (fastcon_controller.h). *)
Record Controller : Type := mkController {
  queue_ : list Command;
  max_queue_size_ : Z;
  adv_state_ : AdvertiseState;
  state_start_time_ : Z;
  mesh_key_ : bytes;
  adv_interval_min_ : Z;
  adv_interval_max_ : Z;
  adv_duration_ : Z;
  adv_gap_ : Z
}.

Definition set_queue (q : list Command) (c : Controller) : Controller :=
  mkController q (max_queue_size_ c) (adv_state_ c) (state_start_time_ c)
    (mesh_key_ c) (adv_interval_min_ c) (adv_interval_max_ c)
    (adv_duration_ c) (adv_gap_ c).

Definition set_adv_state (s : AdvertiseState) (c : Controller) : Controller :=
  mkController (queue_ c) (max_queue_size_ c) s (state_start_time_ c)
    (mesh_key_ c) (adv_interval_min_ c) (adv_interval_max_ c)
    (adv_duration_ c) (adv_gap_ c).

Definition set_state_start_time (t : Z) (c : Controller) : Controller :=
  mkController (queue_ c) (max_queue_size_ c) (adv_state_ c) t
    (mesh_key_ c) (adv_interval_min_ c) (adv_interval_max_ c)
    (adv_duration_ c) (adv_gap_ c).

(** [queue_.size()]. *)
Definition queue_size (c : Controller) : Z := Z.of_nat (length (queue_ c)).

(** What a call leaves behind outside the controller: the warnings it logs
    and the calls it makes to the radio.  (Messages below warning level are
    not recorded.) *)
Inductive Event : Type :=
| WarnQueueFull (size light_id : Z)
| WarnConfigError (err : Z)
| WarnStartError (err : Z)
| WarnPairingConfigError (err : Z)
| WarnPairingStartError (err : Z)
| ConfigAdvDataRaw (raw : bytes) (len : Z)
| StartAdvertising (adv_int_min adv_int_max : Z)
| StopAdvertising
| StopScanning
| StartScanning (duration : Z).

(** The answers of the radio during one call: the [esp_err_t] returned by
    [esp_ble_gap_config_adv_data_raw] and by [esp_ble_gap_start_advertising]. *)
Record Radio : Type := mkRadio {
  config_adv_data_raw : bytes -> Z -> Z;
  start_advertising : Z -> Z -> Z
}.

Definition ESP_OK : Z := 0.

(** A radio on which every call succeeds. *)
Definition radio_ok : Radio := mkRadio (fun _ _ => ESP_OK) (fun _ _ => ESP_OK).

(** [FastconController::queueCommand]; [now] is what [millis()] returns. *)
Definition queueCommand (now light_id_ : Z) (data : bytes) (c : Controller)
    : Controller * list Event :=
  if max_queue_size_ c <=? queue_size c
  then (c, [WarnQueueFull (queue_size c) light_id_])
  else (set_queue (queue_ c ++ [mkCommand data now 0]) c, []).

(** [FastconController::clear_queue]. *)
Definition clear_queue (c : Controller) : Controller := set_queue [] c.

(** ESP-IDF advertisement constants used by [loop]. *)
Definition ESP_BLE_AD_TYPE_FLAG : Z := 1.
Definition ESP_BLE_ADV_FLAG_GEN_DISC : Z := 2.
Definition ESP_BLE_ADV_FLAG_BREDR_NOT_SPT : Z := 4.
Definition ESP_BLE_AD_MANUFACTURER_SPECIFIC_TYPE : Z := 255.
Definition MANUFACTURER_DATA_ID : Z := 65520.

(** The bytes [loop] writes into [adv_data_raw] for a command, and
    [adv_data_len].  The buffer is [uint8_t adv_data_raw[31]] and the source
    copies the command into it without a bound: these are its contents for
    a command that fits, [fits_adv_data_raw] below.  A longer command makes
    [memcpy] write past the end of the buffer, which is undefined; what is
    proved of the bytes handed to the radio for commands that are not
    given in full carries [fits_adv_data_raw] as a hypothesis. *)
Definition adv_data_raw (data : bytes) : bytes :=
  [2; ESP_BLE_AD_TYPE_FLAG;
   Z.lor ESP_BLE_ADV_FLAG_BREDR_NOT_SPT ESP_BLE_ADV_FLAG_GEN_DISC;
   wrap8 (Z.of_nat (length data) + 2);
   ESP_BLE_AD_MANUFACTURER_SPECIFIC_TYPE;
   Z.land MANUFACTURER_DATA_ID 255;
   Z.land (Z.shiftr MANUFACTURER_DATA_ID 8) 255] ++ data.

Definition adv_data_len (data : bytes) : Z :=
  wrap8 (7 + Z.of_nat (length data)).

(** A command that fits the buffer: it is copied behind the 7 bytes of
    flags and manufacturer header, so [memcpy] stays inside the 31 bytes of
    [adv_data_raw] for a command of at most 24 bytes. *)
Definition fits_adv_data_raw (data : bytes) : Prop := (length data <= 24)%nat.

(** The advertisement state machine of [FastconController::loop]
    (the whole of [loop] in fastcon_controller.cpp, the "normal operation"
    part of the extended controller). *)
Definition loop_scheduler (radio : Radio) (now : Z) (c : Controller)
    : Controller * list Event :=
  match adv_state_ c with
  | IDLE =>
      match queue_ c with
      | [] => (c, [])
      | cmd :: rest =>
          let c := set_queue rest c in
          let raw := adv_data_raw (cmd_data cmd) in
          let len := adv_data_len (cmd_data cmd) in
          let err := config_adv_data_raw radio raw len in
          if negb (err =? ESP_OK)
          then (c, [ConfigAdvDataRaw raw len; WarnConfigError err])
          else
            let err := start_advertising radio (adv_interval_min_ c)
                         (adv_interval_max_ c) in
            if negb (err =? ESP_OK)
            then (c, [ConfigAdvDataRaw raw len;
                      StartAdvertising (adv_interval_min_ c) (adv_interval_max_ c);
                      WarnStartError err])
            else (set_state_start_time now (set_adv_state ADVERTISING c),
                  [ConfigAdvDataRaw raw len;
                   StartAdvertising (adv_interval_min_ c) (adv_interval_max_ c)])
      end
  | ADVERTISING =>
      if adv_duration_ c <=? wrap32 (now - state_start_time_ c)
      then (set_state_start_time now (set_adv_state GAP c), [StopAdvertising])
      else (c, [])
  | GAP =>
      if adv_gap_ c <=? wrap32 (now - state_start_time_ c)
      then (set_adv_state IDLE c, [])
      else (c, [])
  end.

(** ** Pairing state machine (the extended controller) *)

Inductive PairingPhase : Type := DISCOVERY | PAIRING.

(** The members the extended controller adds (all hold [uint32_t] values,
    as the expressions assigned to them), and the two function-local statics
    [counter] of [build_discovery_advertisement] and [pairing_counter] of
    [build_pairing_advertisement]. *)
Record Pairing : Type := mkPairing {
  pairing_mode_ : bool;
  pairing_phase_ : PairingPhase;
  pairing_start_time_ : Z;
  pairing_phase_start_ : Z;
  pairing_light_id_ : Z;
  pairing_base_light_id_ : Z;
  sequence_counter_ : Z;
  counter : Z;
  pairing_counter : Z
}.

Definition set_pairing_mode (b : bool) (p : Pairing) : Pairing :=
  mkPairing b (pairing_phase_ p) (pairing_start_time_ p)
    (pairing_phase_start_ p) (pairing_light_id_ p) (pairing_base_light_id_ p)
    (sequence_counter_ p) (counter p) (pairing_counter p).

(** [pairing_phase_ = ph; pairing_phase_start_ = t;] *)
Definition enter_phase (ph : PairingPhase) (t : Z) (p : Pairing) : Pairing :=
  mkPairing (pairing_mode_ p) ph (pairing_start_time_ p) t
    (pairing_light_id_ p) (pairing_base_light_id_ p)
    (sequence_counter_ p) (counter p) (pairing_counter p).

(** [pairing_light_id_ = id; sequence_counter_ = 0x50;] *)
Definition move_to_light (id : Z) (p : Pairing) : Pairing :=
  mkPairing (pairing_mode_ p) (pairing_phase_ p) (pairing_start_time_ p)
    (pairing_phase_start_ p) id (pairing_base_light_id_ p)
    80 (counter p) (pairing_counter p).

Definition set_counter (n : Z) (p : Pairing) : Pairing :=
  mkPairing (pairing_mode_ p) (pairing_phase_ p) (pairing_start_time_ p)
    (pairing_phase_start_ p) (pairing_light_id_ p) (pairing_base_light_id_ p)
    (sequence_counter_ p) n (pairing_counter p).

Definition set_pairing_counter (n : Z) (p : Pairing) : Pairing :=
  mkPairing (pairing_mode_ p) (pairing_phase_ p) (pairing_start_time_ p)
    (pairing_phase_start_ p) (pairing_light_id_ p) (pairing_base_light_id_ p)
    (sequence_counter_ p) (counter p) n.

(** The bytes both advertisements start with: the reversed MAC, the AD flags
    structure and the manufacturer-specific header. *)
Definition adv_prefix : bytes :=
  [102; 85; 68; 51; 34; 17] ++ [2; 1; 26] ++ [19] ++ [255] ++ [240] ++ [255].

(** [FastconController::build_discovery_advertisement]: the advertisement
    and the next value of its static [counter]. *)
Definition build_discovery_advertisement (counter : Z) : bytes * Z :=
  (adv_prefix ++ [78]
     ++ [wrap8 (108 + counter mod 4); wrap8 (90 + counter mod 8);
         wrap8 (counter mod 8); 52; 142; 137; 181]
     ++ [226; 56; 161; 168; 94; 54; 123; 196]
     ++ [233; 151; 77],
   wrap8 (counter + 1)).

(** [FastconController::calculate_pairing_crc]. *)
Definition calculate_pairing_crc (data : bytes) : Z :=
  let sum := fold_left (fun s b => wrap32 (s + b)) (skipn 13 data) 0 in
  Z.land (wrap32 (sum * 4660)) 16777215.

(** [FastconController::build_pairing_advertisement]: the advertisement and
    the next value of its static [pairing_counter]. *)
Definition build_pairing_advertisement (mesh_key_ : bytes)
    (pairing_light_id_ pairing_counter : Z) : bytes * Z :=
  let adv_data :=
    adv_prefix ++ [110]
      ++ [pairing_counter]
      ++ [wrap8 (Z.land pairing_light_id_ 255);
          wrap8 (Z.land (Z.shiftr pairing_light_id_ 8) 255)]
      ++ [68; 16; 51; 50]
      ++ [52; 10]
      ++ [57; 57]
      ++ [nth 0 mesh_key_ 0; nth 1 mesh_key_ 0; nth 2 mesh_key_ 0;
          nth 3 mesh_key_ 0] in
  let crc := calculate_pairing_crc adv_data in
  (adv_data ++ [wrap8 (Z.land (Z.shiftr crc 16) 255);
                wrap8 (Z.land (Z.shiftr crc 8) 255);
                wrap8 (Z.land crc 255)],
   wrap8 (pairing_counter + 1)).

(** The state of the extended controller. *)
Definition State : Type := (Controller * Pairing)%type.

(** [FastconController::pair_device] of the extended controller. *)
Definition pair_device (now new_light_id group_id : Z) (s : State)
    : State * list Event :=
  let '(c, p) := s in
  ((set_adv_state IDLE c,
    mkPairing true DISCOVERY now (pairing_phase_start_ p)
      new_light_id new_light_id
      (sequence_counter_ p) (counter p) (pairing_counter p)),
   [StopScanning; StopAdvertising]).

(** [loop], pairing mode: "Phase transition: Discovery (4s) -> Pairing". *)
Definition pairing_phase_transition (now elapsed : Z) (s : State)
    : State * list Event :=
  let '(c, p) := s in
  match pairing_phase_ p with
  | DISCOVERY =>
      if 4000 <=? elapsed
      then ((set_adv_state IDLE c, enter_phase PAIRING now p), [StopAdvertising])
      else (s, [])
  | PAIRING => (s, [])
  end.

(** [loop], pairing mode: "Auto-increment Light ID every 5 seconds during
    pairing phase". *)
Definition pairing_auto_increment (now : Z) (s : State) : State * list Event :=
  let '(c, p) := s in
  match pairing_phase_ p with
  | PAIRING =>
      let phase_elapsed := wrap32 (now - pairing_phase_start_ p) in
      let current_light_slot := phase_elapsed / 5000 in
      let new_light_id := wrap32 (pairing_base_light_id_ p + current_light_slot) in
      if negb (new_light_id =? pairing_light_id_ p)
      then ((set_adv_state IDLE c, move_to_light new_light_id p), [StopAdvertising])
      else (s, [])
  | DISCOVERY => (s, [])
  end.

(** [copy_len = std::min(adv_data.size() - 6, (size_t)25)] and the bytes
    copied into [adv_data_raw]: the advertisement without its 6-byte MAC,
    cut to 25 bytes.  (Both advertisements have 32 bytes.) *)
Definition pairing_copy_len (adv_data : bytes) : Z :=
  Z.min (Z.of_nat (length adv_data) - 6) 25.

Definition pairing_adv_data_raw (adv_data : bytes) : bytes :=
  firstn (Z.to_nat (pairing_copy_len adv_data)) (skipn 6 adv_data).

(** An event list made of calls to stop advertising only. *)
Definition only_stops (ev : list Event) : Prop := Forall (eq StopAdvertising) ev.

(** [loop], pairing mode: "Continuously advertise during pairing mode". *)
Definition pairing_advertise (radio : Radio) (now : Z) (s : State)
    : State * list Event :=
  let '(c, p) := s in
  let due :=
    match adv_state_ c with
    | IDLE => true
    | ADVERTISING => 100 <=? wrap32 (now - state_start_time_ c)
    | GAP => false
    end in
  if due then
    let stop :=
      match adv_state_ c with ADVERTISING => [StopAdvertising] | _ => [] end in
    let '(adv_data, p) :=
      match pairing_phase_ p with
      | DISCOVERY =>
          let '(adv, n) := build_discovery_advertisement (counter p) in
          (adv, set_counter n p)
      | PAIRING =>
          let '(adv, n) :=
            build_pairing_advertisement (mesh_key_ c) (pairing_light_id_ p)
              (pairing_counter p) in
          (adv, set_pairing_counter n p)
      end in
    let copy_len := pairing_copy_len adv_data in
    let raw := pairing_adv_data_raw adv_data in
    let err := config_adv_data_raw radio raw copy_len in
    if negb (err =? ESP_OK)
    then ((c, p), stop ++ [ConfigAdvDataRaw raw copy_len;
                           WarnPairingConfigError err])
    else
      let err := start_advertising radio 32 64 in
      if negb (err =? ESP_OK)
      then ((c, p), stop ++ [ConfigAdvDataRaw raw copy_len;
                             StartAdvertising 32 64;
                             WarnPairingStartError err])
      else ((set_state_start_time now (set_adv_state ADVERTISING c), p),
            stop ++ [ConfigAdvDataRaw raw copy_len; StartAdvertising 32 64])
  else (s, []).

(** [FastconController::loop] of the extended controller. *)
Definition loop (radio : Radio) (now : Z) (s : State) : State * list Event :=
  if pairing_mode_ (snd s) then
    let elapsed := wrap32 (now - pairing_start_time_ (snd s)) in
    let '(s, ev1) := pairing_phase_transition now elapsed s in
    let '(s, ev2) := pairing_auto_increment now s in
    if 60000 <=? elapsed
    then ((set_adv_state IDLE (fst s), set_pairing_mode false (snd s)),
          ev1 ++ ev2 ++ [StopAdvertising; StartScanning 300])
    else
      let '(s, ev3) := pairing_advertise radio now s in
      (s, ev1 ++ ev2 ++ ev3)
  else
    let '(c, ev) := loop_scheduler radio now (fst s) in
    ((c, snd s), ev).

(** ** Light-state encoder: [FastconController::get_light_data] *)

(** C++ [float]: IEEE 754 binary32 (24 bits of precision, [emax] 128). *)
Definition float : Type := spec_float.

(** The [float] an integer constant converts to. *)
Definition f32 (z : Z) : float := binary_normalize 24 128 z 0 false.

Definition fmul : float -> float -> float := SFmul 24 128.
Definition fadd : float -> float -> float := SFadd 24 128.
Definition fsub : float -> float -> float := SFsub 24 128.
Definition fdiv : float -> float -> float := SFdiv 24 128.
Definition fltb : float -> float -> bool := SFltb.

(** [std::min(a, b)]: [b] when [b < a], otherwise [a]. *)
Definition fmin (a b : float) : float := if fltb b a then b else a.

(** [static_cast<uint8_t>(x)]: the value truncated toward zero; undefined
    ([None]) when that is not a value of [uint8_t] (also for NaN and the
    infinities). *)
Definition float_to_u8 (x : float) : option Z :=
  match x with
  | S754_zero _ => Some 0
  | S754_finite s m e =>
      let mag := if 0 <=? e then Z.pos m * 2 ^ e else Z.pos m / 2 ^ (- e) in
      let v := if s then - mag else mag in
      if (0 <=? v) && (v <? 256) then Some v else None
  | _ => None
  end.

(** [light::ColorCapability] (esphome/components/light/color_mode.h). *)
Definition WHITE : Z := 4.
Definition COLOR_TEMPERATURE : Z := 8.
Definition COLD_WARM_WHITE : Z := 16.
Definition RGB : Z := 32.

(** What [get_light_data] reads of [state->current_values]. *)
Record LightColorValues : Type := mkValues {
  is_on : bool;
  get_color_mode : Z;
  get_brightness : float;
  get_red : float;
  get_green : float;
  get_blue : float;
  get_warm_white : float;
  get_cold_white : float;
  get_color_temperature : float
}.

(** [(static_cast<uint8_t>(color_mode) & static_cast<uint8_t>(cap)) != 0]. *)
Definition has_capability (color_mode cap : Z) : bool :=
  negb (Z.land (wrap8 color_mode) (wrap8 cap) =? 0).

Definition obind {A B : Type} (o : option A) (k : A -> option B) : option B :=
  match o with
  | Some x => k x
  | None => None
  end.

Notation "x <- o ;; k" := (obind o (fun x => k))
  (at level 61, o at next level, right associativity).

(** The RGB block. *)
Definition light_data_rgb (values : LightColorValues) (light_data : bytes)
    : option bytes :=
  if has_capability (get_color_mode values) RGB then
    blue <- float_to_u8 (fmul (get_blue values) (f32 255)) ;;
    red <- float_to_u8 (fmul (get_red values) (f32 255)) ;;
    green <- float_to_u8 (fmul (get_green values) (f32 255)) ;;
    Some (store 3 green (store 2 red (store 1 blue light_data)))
  else Some light_data.

(** The cold/warm white block. *)
Definition light_data_cold_warm (values : LightColorValues) (light_data : bytes)
    : option bytes :=
  if has_capability (get_color_mode values) COLD_WARM_WHITE then
    warm <- float_to_u8 (fmul (get_warm_white values) (f32 255)) ;;
    cold <- float_to_u8 (fmul (get_cold_white values) (f32 255)) ;;
    Some (store 5 cold (store 4 warm light_data))
  else Some light_data.

(** The colour temperature block. *)
Definition light_data_temperature (values : LightColorValues) (light_data : bytes)
    : option bytes :=
  if has_capability (get_color_mode values) COLOR_TEMPERATURE then
    let temperature := get_color_temperature values in
    if fltb temperature (f32 153)
    then Some (store 5 0 (store 4 255 light_data))
    else if fltb (f32 500) temperature
    then Some (store 5 255 (store 4 0 light_data))
    else
      warm <- float_to_u8
                (fdiv (fadd (fmul (fsub (f32 500) temperature) (f32 255))
                            (fmul (fsub temperature (f32 153)) (f32 0)))
                      (f32 (500 - 153))) ;;
      cold <- float_to_u8
                (fdiv (fadd (fmul (fsub temperature (f32 153)) (f32 255))
                            (fmul (fsub (f32 500) temperature) (f32 0)))
                      (f32 (500 - 153))) ;;
      Some (store 5 cold (store 4 warm light_data))
  else Some light_data.

Definition get_light_data (values : LightColorValues) : option bytes :=
  let light_data := [0; 0; 0; 0; 0; 0] in
  if negb (is_on values) then Some [0]
  else
    let color_mode := get_color_mode values in
    let has_white := has_capability color_mode WHITE in
    let brightness := fmin (fmul (get_brightness values) (f32 127)) (f32 127) in
    b <- float_to_u8 brightness ;;
    let light_data := store 0 (wrap8 (128 + b)) light_data in
    if has_white then Some [b]
    else
      light_data <- light_data_rgb values light_data ;;
      light_data <- light_data_cold_warm values light_data ;;
      light_data_temperature values light_data.

(** ** Debounce / dedup layer of a light *)

(** Modelled from the spec: fastcon_light.cpp is not part of the sources;
    OPTIMIZATION.md quotes the members it adds to the light, the body of
    [write_state] and the tests of its [loop].  The pending-flag test at the
    head of [loop] and what it records after a command is handed to the
    queue follow section 4.6 of the specification. *)
Record FastconLight : Type := mkLight {
  light_id_ : Z;
  last_sent_data_ : bytes;
  pending_data_ : bytes;
  last_state_change_ : Z;
  last_command_sent_ : Z;
  has_pending_command_ : bool
}.

(** The two constants of fastcon_light.h that OPTIMIZATION.md quotes: the
    settle window and the minimum interval between commands to one light. *)
Definition DEBOUNCE_MS : Z := 100.
Definition MIN_INTERVAL_MS : Z := 300.

(** Modelled from the spec: [write_state] stashes the encoded command as
    pending and stamps the time of the change. *)
Definition write_state (now : Z) (adv_data : bytes) (l : FastconLight)
    : FastconLight :=
  mkLight (light_id_ l) (last_sent_data_ l) adv_data now
    (last_command_sent_ l) true.

(** Modelled from the spec: one tick of the light's [loop]; the second
    component is the command it hands to [queueCommand], if any. *)
Definition light_loop (now : Z) (l : FastconLight)
    : FastconLight * option bytes :=
  if negb (has_pending_command_ l) then (l, None)
  else if wrap32 (now - last_state_change_ l) <? DEBOUNCE_MS then (l, None)
  else if wrap32 (now - last_command_sent_ l) <? MIN_INTERVAL_MS then (l, None)
  else if list_eq_dec Z.eq_dec (pending_data_ l) (last_sent_data_ l)
  then (mkLight (light_id_ l) (last_sent_data_ l) (pending_data_ l)
          (last_state_change_ l) (last_command_sent_ l) false, None)
  else (mkLight (light_id_ l) (pending_data_ l) (pending_data_ l)
          (last_state_change_ l) now false,
        Some (pending_data_ l)).

(** What reaches a light: a state update carrying the encoded command, or a
    tick of the polling loop. *)
Inductive LightEvent : Type :=
| Update (now : Z) (adv_data : bytes)
| Tick (now : Z).

(** The light run over a series of events, with the commands it handed to
    the queue, oldest first. *)
Fixpoint run_light (evs : list LightEvent) (l : FastconLight)
    : FastconLight * list bytes :=
  match evs with
  | [] => (l, [])
  | Update now adv_data :: rest => run_light rest (write_state now adv_data l)
  | Tick now :: rest =>
      let '(l, out) := light_loop now l in
      let '(l', outs) := run_light rest l in
      (l', match out with Some d => d :: outs | None => outs end)
  end.

(** ** Reading frames back, and runs of calls *)

(** One call of [generate_command]: its arguments. *)
Record GenCall : Type := mkCall {
  call_n : Z;
  call_light_id : Z;
  call_data : bytes;
  call_forward : bool
}.

Section Receiver.

Variable DEFAULT_ENCRYPT_KEY : bytes.

(** Successive calls of [generate_command] on one controller, the static
    [sequence] threaded from call to call: the encrypted bodies, in order. *)
Fixpoint generate_bodies (mesh_key_ : bytes) (sequence : Z)
    (calls : list GenCall) : list bytes :=
  match calls with
  | [] => []
  | call :: rest =>
      let '(body, sequence') :=
        generate_command_body DEFAULT_ENCRYPT_KEY mesh_key_ sequence
          (call_n call) (call_light_id call) (call_data call)
          (call_forward call) in
      body :: generate_bodies mesh_key_ sequence' rest
  end.

(** Decryption as the specification words it: header bytes 0..3 are XORed
    with the fixed constant, payload bytes with the mesh key, the key byte
    chosen by the index modulo 4. *)
Definition spec_decrypt_byte (mesh_key_ : bytes) (i : nat) (b : Z) : Z :=
  if Nat.ltb i 4
  then Z.lxor (nth (i mod 4) DEFAULT_ENCRYPT_KEY 0) b
  else Z.lxor (nth ((i - 4) mod 4) mesh_key_ 0) b.

Definition spec_decrypt (mesh_key_ : bytes) (body : bytes) : bytes :=
  mapi_from (spec_decrypt_byte mesh_key_) 0 body.

End Receiver.

(** The sum of a byte vector. *)
Definition sum_bytes (l : bytes) : Z := fold_right Z.add 0 l.

(** The sum of all bytes except the one at index 3. *)
Definition spec_sum_except_3 (l : bytes) : Z :=
  sum_bytes (firstn 3 l) + sum_bytes (skipn 4 l).

(** The sequence byte the specification gives the [i]-th generated frame
    (counted from 0): 0, 1, ..., 254, 1, 2, ..., 254, 1, ... *)
Definition spec_sequence_byte (i : nat) : Z :=
  match i with
  | O => 0
  | S j => Z.of_nat j mod 254 + 1
  end.

(** A controller as its member initialisers leave it. *)
Definition initial_controller : Controller :=
  mkController [] 100 IDLE 0 [0; 0; 0; 0] 32 64 50 10.

(** The pairing members before any session, with the two statics at their
    initial values ([counter = 0], [pairing_counter = 0x50]). *)
Definition initial_pairing : Pairing :=
  mkPairing false DISCOVERY 0 0 0 0 0 0 80.

(** The calls that touch the command queue. *)
Inductive Op : Type :=
| OpQueueCommand (now light_id : Z) (data : bytes)
| OpLoop (radio : Radio) (now : Z)
| OpClearQueue.

Definition apply_op (op : Op) (c : Controller) : Controller * list Event :=
  match op with
  | OpQueueCommand now light_id data => queueCommand now light_id data c
  | OpLoop radio now => loop_scheduler radio now c
  | OpClearQueue => (clear_queue c, [])
  end.

Fixpoint run_ops (ops : list Op) (c : Controller) : Controller * list Event :=
  match ops with
  | [] => (c, [])
  | op :: rest =>
      let '(c, ev) := apply_op op c in
      let '(c', evs) := run_ops rest c in
      (c', ev ++ evs)
  end.

(** Successive ticks of the extended [loop], each with the radio's answers
    and the time it runs at. *)
Fixpoint run_loop (ticks : list (Radio * Z)) (s : State) : State * list Event :=
  match ticks with
  | [] => (s, [])
  | (radio, now) :: rest =>
      let '(s, ev) := loop radio now s in
      let '(s', evs) := run_loop rest s in
      (s', ev ++ evs)
  end.

(** The advertisement data a call handed to the radio, if it did. *)
Fixpoint configured_raw (ev : list Event) : option bytes :=
  match ev with
  | [] => None
  | ConfigAdvDataRaw raw _ :: _ => Some raw
  | _ :: rest => configured_raw rest
  end.

(** [l] starts with [p]. *)
Fixpoint is_prefix (p l : bytes) : bool :=
  match p, l with
  | [], _ => true
  | _ :: _, [] => false
  | x :: p', y :: l' => (x =? y) && is_prefix p' l'
  end.

(** [p] occurs in [l] as a run of consecutive bytes. *)
Fixpoint is_infix (p l : bytes) : bool :=
  is_prefix p l ||
  match l with
  | [] => false
  | _ :: l' => is_infix p l'
  end.

(** The ASCII character of a hexadecimal digit, in upper or lower case. *)
Definition spec_hex_digit (upper : bool) (d : Z) : Z :=
  if d <? 10 then 48 + d else (if upper then 55 else 87) + d.

(** A byte vector in ASCII-hex form: two hexadecimal digit characters per
    byte, high nibble first. *)
Definition spec_ascii_hex (upper : bool) (l : bytes) : bytes :=
  flat_map (fun b => [spec_hex_digit upper (b / 16);
                      spec_hex_digit upper (b mod 16)]) l.

(** The ASCII characters 0-9, A-F and a-f. *)
Definition is_hex_char (b : Z) : bool :=
  ((48 <=? b) && (b <=? 57)) || ((65 <=? b) && (b <=? 70))
  || ((97 <=? b) && (b <=? 102)).

(** [text] is [key] in ASCII-hex form: its hexadecimal rendering, or the
    key itself when its bytes already are hexadecimal digit characters. *)
Definition spec_ascii_hex_form (key text : bytes) : Prop :=
  (exists upper, text = spec_ascii_hex upper key)
  \/ (text = key /\ forallb is_hex_char key = true).

(** An advertisement embeds a key in ASCII-hex form. *)
Definition spec_embeds_ascii_hex (key adv : bytes) : Prop :=
  exists text, spec_ascii_hex_form key text /\ is_infix text adv = true.

(** Values to run the codec on: a header key, a broadcast address and a
    framing step (which here puts the address in front of the body), and a
    mesh key, the characters "0236". *)
Definition example_encrypt_key : bytes := [94; 54; 123; 196].
Definition example_address : bytes := [193; 194; 195].
Definition example_prepare_payload (addr body : bytes) : bytes := addr ++ body.
Definition example_mesh_key : bytes := [48; 50; 51; 54].

(** A mesh key that is not text: the bytes AB CD EF 01. *)
Definition example_binary_key : bytes := [171; 205; 239; 1].

(** A call that switches light 1 on at full brightness. *)
Definition example_call : GenCall := mkCall 5 1 [34; 1; 255] true.

(** A controller in the pairing phase of a session begun at 0 ms. *)
Definition example_pairing_state : State :=
  (mkController [] 100 IDLE 0 example_mesh_key 32 64 50 10,
   mkPairing true PAIRING 0 4000 1 1 0 0 80).

(** What no step of a pairing session changes: the queue, the configuration
    and the session's mode, start time and base light id. *)
Definition session_frame (s s' : State) : Prop :=
  queue_ (fst s') = queue_ (fst s)
  /\ mesh_key_ (fst s') = mesh_key_ (fst s)
  /\ pairing_mode_ (snd s') = pairing_mode_ (snd s)
  /\ pairing_start_time_ (snd s') = pairing_start_time_ (snd s)
  /\ pairing_base_light_id_ (snd s') = pairing_base_light_id_ (snd s).

(** ** The other entry points of the controller *)

(** [FastconController::is_queue_empty] and [get_queue_size]. *)
Definition is_queue_empty (c : Controller) : bool :=
  match queue_ c with
  | [] => true
  | _ :: _ => false
  end.

Definition get_queue_size (c : Controller) : Z := queue_size c.

Section Commands.

Variable DEFAULT_ENCRYPT_KEY : bytes.
Variable DEFAULT_BLE_FASTCON_ADDRESS : bytes.
Variable prepare_payload : bytes -> bytes -> bytes.

(** [FastconController::send_raw_command]: the controller, the next value
    of the static [sequence] of [generate_command], and the events. *)
Definition send_raw_command (now sequence light_id : Z) (data : bytes)
    (c : Controller) : Controller * Z * list Event :=
  let '(mesh_packet, sequence') :=
    generate_command DEFAULT_ENCRYPT_KEY DEFAULT_BLE_FASTCON_ADDRESS
      prepare_payload (mesh_key_ c) sequence 5 light_id data true in
  let '(c', ev) := queueCommand now light_id mesh_packet c in
  (c', sequence', ev).

(** [FastconController::factory_reset_device]. *)
Definition factory_reset_device (now sequence light_id : Z) (c : Controller)
    : Controller * Z * list Event :=
  let reset_data := repeat 0 7 in
  let '(mesh_packet, sequence') :=
    generate_command DEFAULT_ENCRYPT_KEY DEFAULT_BLE_FASTCON_ADDRESS
      prepare_payload (mesh_key_ c) sequence 5 light_id reset_data true in
  let '(c', ev) := queueCommand now light_id mesh_packet c in
  (c', sequence', ev).

(** The [pairing_data] that [pair_device] of fastcon_controller.cpp builds:
    six zero bytes for the MAC, the low byte of the light id, the constant
    1 and the mesh key. *)
Definition pairing_data (mesh_key_ : bytes) (new_light_id : Z) : bytes :=
  repeat 0 6 ++ [wrap8 (Z.land new_light_id 255); 1]
    ++ [nth 0 mesh_key_ 0; nth 1 mesh_key_ 0; nth 2 mesh_key_ 0;
        nth 3 mesh_key_ 0].

(** [FastconController::pair_device] of fastcon_controller.cpp (the
    controller without the pairing mode): a pairing command, type 2,
    broadcast to 0xFFFF through the queue. *)
Definition mesh_pair_device (now sequence new_light_id group_id : Z)
    (c : Controller) : Controller * Z * list Event :=
  let '(mesh_packet, sequence') :=
    generate_command DEFAULT_ENCRYPT_KEY DEFAULT_BLE_FASTCON_ADDRESS
      prepare_payload (mesh_key_ c) sequence 2 65535
      (pairing_data (mesh_key_ c) new_light_id) true in
  let '(c', ev) := queueCommand now 65535 mesh_packet c in
  (c', sequence', ev).

End Commands.

(** The command bytes of the advertisements handed to the radio by the
    scheduler, oldest first: each is what follows the 7 bytes of flags and
    manufacturer header. *)
Fixpoint attempted (ev : list Event) : list bytes :=
  match ev with
  | [] => []
  | ConfigAdvDataRaw raw _ :: rest => skipn 7 raw :: attempted rest
  | _ :: rest => attempted rest
  end.

(** The data of the calls of [queueCommand] in a series of calls that found
    room in the queue, oldest first. *)
Fixpoint accepted (ops : list Op) (c : Controller) : list bytes :=
  match ops with
  | [] => []
  | op :: rest =>
      match op with
      | OpQueueCommand _ _ data =>
          if max_queue_size_ c <=? queue_size c then [] else [data]
      | _ => []
      end ++ accepted rest (fst (apply_op op c))
  end.

(** A series of calls without [clear_queue]. *)
Definition never_cleared (ops : list Op) : Prop :=
  Forall (fun op => op <> OpClearQueue) ops.

(** A call that queues nothing longer than the advertisement buffer takes,
    and a controller whose queued commands all fit it. *)
Definition op_fits (op : Op) : Prop :=
  match op with
  | OpQueueCommand _ _ data => fits_adv_data_raw data
  | _ => True
  end.

Definition queue_fits (c : Controller) : Prop :=
  Forall (fun cmd => fits_adv_data_raw (cmd_data cmd)) (queue_ c).

(** Every advertisement handed to the radio lies within the 31 bytes of
    [adv_data_raw], and the length passed with it is its length. *)
Definition within_buffer (ev : list Event) : Prop :=
  forall raw len,
    In (ConfigAdvDataRaw raw len) ev ->
    (length raw <= 31)%nat /\ len = Z.of_nat (length raw).

(** A value of the binary32 format. *)
Definition is_binary32 (x : float) : Prop := valid_binary 24 128 x = true.

(** Calls of [queueCommand], one per command given as (time, light id,
    data). *)
Definition queue_all (cmds : list (Z * Z * bytes)) : list Op :=
  map (fun cmd => OpQueueCommand (fst (fst cmd)) (snd (fst cmd)) (snd cmd)) cmds.

(** The scheduler has nothing to do at [now]: no command to send, or the
    advertising duration or the gap not yet over. *)
Definition waiting (now : Z) (c : Controller) : Prop :=
  match adv_state_ c with
  | IDLE => queue_ c = []
  | ADVERTISING => wrap32 (now - state_start_time_ c) < adv_duration_ c
  | GAP => wrap32 (now - state_start_time_ c) < adv_gap_ c
  end.

(** What a block of [get_light_data] keeps of the vector it is given: its
    length, its being made of bytes, and the bytes at the indices [kept]. *)
Definition block_keeps (block : bytes -> option bytes) (kept : list nat) : Prop :=
  forall ld ld',
    block ld = Some ld' ->
    length ld' = length ld
    /\ (all_u8 ld -> all_u8 ld')
    /\ forall j, In j kept -> nth j ld' 0 = nth j ld 0.

(** The advertisement a tick of the pairing mode builds, by phase. *)
Definition phase_advertisement (c : Controller) (p : Pairing) : bytes :=
  match pairing_phase_ p with
  | DISCOVERY => fst (build_discovery_advertisement (counter p))
  | PAIRING =>
      fst (build_pairing_advertisement (mesh_key_ c) (pairing_light_id_ p)
             (pairing_counter p))
  end.

(** A radio that refuses every advertisement: setting the data fails, or
    starting to advertise does. *)
Definition radio_refuses (radio : Radio) : Prop :=
  (forall raw len, config_adv_data_raw radio raw len <> ESP_OK)
  \/ (forall a b, start_advertising radio a b <> ESP_OK).

(** Nothing moves the session at [now]: the discovery phase is not over,
    or the light id already is the one of the current 5,000 ms slot. *)
Definition settled (now : Z) (p : Pairing) : Prop :=
  match pairing_phase_ p with
  | DISCOVERY => wrap32 (now - pairing_start_time_ p) < 4000
  | PAIRING =>
      pairing_light_id_ p
      = wrap32 (pairing_base_light_id_ p
                + wrap32 (now - pairing_phase_start_ p) / 5000)
  end.

(** Light states to run the encoder on: half brightness in RGB mode
    (ON_OFF | BRIGHTNESS | RGB) with blue 1, red 0, green 1/2, and in colour
    temperature mode (ON_OFF | BRIGHTNESS | COLOR_TEMPERATURE) at 100. *)
Definition example_half : float := fdiv (f32 1) (f32 2).

Definition example_rgb_values : LightColorValues :=
  mkValues true 35 example_half (f32 0) example_half (f32 1)
    (f32 0) (f32 0) (f32 0).

Definition example_warm_values : LightColorValues :=
  mkValues true 11 example_half (f32 0) (f32 0) (f32 0)
    (f32 0) (f32 0) (f32 100).

(** ** Properties of the codec *)

Lemma wrap8_is_u8 : forall z, is_u8 (wrap8 z).
Proof. intro z. unfold is_u8, wrap8. apply Z.mod_pos_bound. lia. Qed.

Lemma wrap8_small : forall z, is_u8 z -> wrap8 z = z.
Proof. intros z H. unfold wrap8. apply Z.mod_small. exact H. Qed.

Lemma lxor_mod_pow2 : forall a b n,
  0 <= n -> Z.lxor a b mod 2 ^ n = Z.lxor (a mod 2 ^ n) (b mod 2 ^ n).
Proof.
  intros a b n Hn. apply Z.bits_inj'. intros i Hi.
  rewrite Z.lxor_spec, !Z.testbit_mod_pow2, Z.lxor_spec by lia.
  destruct (i <? n); simpl; [reflexivity | ].
  reflexivity.
Qed.

Lemma lxor_is_u8 : forall a b, is_u8 a -> is_u8 b -> is_u8 (Z.lxor a b).
Proof.
  intros a b Ha Hb.
  rewrite <- (wrap8_small a Ha), <- (wrap8_small b Hb).
  unfold wrap8. change 256 with (2 ^ 8).
  rewrite <- lxor_mod_pow2 by lia.
  apply Z.mod_pos_bound. lia.
Qed.

Lemma lxor_cancel : forall k b, Z.lxor k (Z.lxor k b) = b.
Proof.
  intros k b. rewrite <- Z.lxor_assoc, Z.lxor_nilpotent. apply Z.lxor_0_l.
Qed.

Lemma nth_is_u8 : forall (l : bytes) i, all_u8 l -> is_u8 (nth i l 0).
Proof.
  intros l i H. revert i.
  induction H as [| x l Hx Hl IH]; intros [| i]; simpl; auto;
    unfold is_u8; lia.
Qed.

Lemma land_3_mod_4 : forall i : nat, Nat.land i 3 = (i mod 4)%nat.
Proof. intro i. exact (Nat.land_ones i 2). Qed.

Lemma mapi_from_compose :
  forall (A B C : Type) (g : nat -> B -> C) (f : nat -> A -> B) l i,
    mapi_from g i (mapi_from f i l) = mapi_from (fun j x => g j (f j x)) i l.
Proof.
  intros A B C g f l. induction l as [| x l IH]; intro i; simpl.
  - reflexivity.
  - rewrite IH. reflexivity.
Qed.

Lemma mapi_from_id :
  forall (f : nat -> Z -> Z) (l : bytes) i,
    (forall j x, is_u8 x -> f j x = x) -> all_u8 l -> mapi_from f i l = l.
Proof.
  intros f l i Hf Hl. revert i.
  induction Hl as [| x l Hx Hl IH]; intro i; simpl.
  - reflexivity.
  - rewrite Hf by assumption. rewrite IH. reflexivity.
Qed.

Lemma length_mapi_from : forall (A B : Type) (f : nat -> A -> B) l i,
  length (mapi_from f i l) = length l.
Proof.
  intros A B f l. induction l as [| x l IH]; intro i; simpl;
    [| rewrite IH]; reflexivity.
Qed.

Section ProtocolProperties.

Variable DEFAULT_ENCRYPT_KEY : bytes.
Variable DEFAULT_BLE_FASTCON_ADDRESS : bytes.
Variable prepare_payload : bytes -> bytes -> bytes.

Lemma decrypt_encrypt_byte : forall mesh_key i b,
  all_u8 DEFAULT_ENCRYPT_KEY -> all_u8 mesh_key -> is_u8 b ->
  spec_decrypt_byte DEFAULT_ENCRYPT_KEY mesh_key i
    (encrypt_byte DEFAULT_ENCRYPT_KEY mesh_key i b) = b.
Proof.
  intros mesh_key i b Hk Hm Hb.
  unfold spec_decrypt_byte, encrypt_byte, key_at.
  rewrite !land_3_mod_4.
  destruct (Nat.ltb i 4).
  - rewrite wrap8_small by (apply lxor_is_u8; [apply nth_is_u8 |]; assumption).
    apply lxor_cancel.
  - rewrite wrap8_small by (apply lxor_is_u8; [apply nth_is_u8 |]; assumption).
    apply lxor_cancel.
Qed.

Lemma decrypt_encrypt_body : forall mesh_key body,
  all_u8 DEFAULT_ENCRYPT_KEY -> all_u8 mesh_key -> all_u8 body ->
  spec_decrypt DEFAULT_ENCRYPT_KEY mesh_key
    (encrypt_body DEFAULT_ENCRYPT_KEY mesh_key body) = body.
Proof.
  intros mesh_key body Hk Hm Hb.
  unfold spec_decrypt, encrypt_body.
  rewrite mapi_from_compose.
  apply mapi_from_id; [| exact Hb].
  intros j x Hx. apply decrypt_encrypt_byte; assumption.
Qed.

Lemma checksum_from_is_u8 : forall l i c,
  is_u8 c -> is_u8 (checksum_from i l c).
Proof.
  induction l as [| b l IH]; intros i c Hc; simpl.
  - exact Hc.
  - apply IH. destruct (Nat.eqb i 3); [exact Hc | apply wrap8_is_u8].
Qed.

Lemma checksum_from_sum : forall l i c,
  (4 <= i)%nat ->
  wrap8 (checksum_from i l c) = wrap8 (c + sum_bytes l).
Proof.
  induction l as [| b l IH]; intros i c Hi; simpl.
  - f_equal. lia.
  - replace (Nat.eqb i 3) with false
      by (symmetry; apply Nat.eqb_neq; lia).
    rewrite IH by lia. unfold wrap8.
    rewrite Z.add_mod_idemp_l by lia. f_equal. lia.
Qed.

(** The checksum of a body, as a sum: bytes 0, 1, 2 and the payload. *)
Lemma checksum_of_body : forall h0 h1 h2 h3 data,
  checksum_of (h0 :: h1 :: h2 :: h3 :: data)
  = wrap8 (h0 + h1 + h2 + sum_bytes data).
Proof.
  intros h0 h1 h2 h3 data. unfold checksum_of. simpl.
  rewrite <- (wrap8_small (checksum_from 4 data _))
    by (apply checksum_from_is_u8, wrap8_is_u8).
  rewrite checksum_from_sum by lia. unfold wrap8.
  repeat (rewrite Z.add_mod_idemp_l by lia; rewrite <- ?Z.add_assoc).
  f_equal; lia.
Qed.

(** C3.  Every body [generate_command] produces carries its own checksum.
    The body has the four header bytes and the data, [data.size() + 4]
    bytes, so it has a byte 3.  Decrypting header bytes 0..3 with the fixed
    constant and the payload with the mesh key, then adding up all decrypted
    bytes except the one at index 3 modulo 256, gives decrypted byte 3; the
    bytes added up are the header byte 0, the sequence number, the key byte
    and the data. *)
Theorem generate_command_checksum :
  forall mesh_key sequence n light_id data forward,
    all_u8 DEFAULT_ENCRYPT_KEY -> all_u8 mesh_key ->
    is_u8 sequence -> all_u8 data ->
    let frame := fst (generate_command_body DEFAULT_ENCRYPT_KEY mesh_key
                        sequence n light_id data forward) in
    let plain := spec_decrypt DEFAULT_ENCRYPT_KEY mesh_key frame in
    length frame = (length data + 4)%nat
    /\ length plain = length frame
    /\ nth_error plain 3 = Some (spec_sum_except_3 plain mod 256)
    /\ spec_sum_except_3 plain mod 256 = nth 3 plain 0
    /\ spec_sum_except_3 plain
       = header_byte0 n light_id forward + sequence + nth 3 mesh_key 0
         + sum_bytes data.
Proof.
  intros mesh_key sequence n light_id data forward Hk Hm Hs Hd frame plain.
  assert (length frame = (length data + 4)%nat) as Hlen.
  { subst frame. unfold generate_command_body, command_body, encrypt_body.
    cbn [fst]. rewrite length_mapi_from. simpl. lia. }
  assert (plain
          = header_byte0 n light_id forward :: sequence :: nth 3 mesh_key 0
            :: wrap8 (header_byte0 n light_id forward + sequence
                      + nth 3 mesh_key 0 + sum_bytes data) :: data) as Hplain.
  { subst plain frame. unfold generate_command_body, command_body. simpl fst.
    rewrite checksum_of_body.
    rewrite decrypt_encrypt_body; try assumption; [reflexivity |].
    repeat apply Forall_cons; try assumption.
    - apply wrap8_is_u8.
    - apply nth_is_u8; assumption.
    - apply wrap8_is_u8. }
  split; [exact Hlen |].
  split; [subst plain; unfold spec_decrypt; apply length_mapi_from |].
  rewrite Hplain. unfold spec_sum_except_3, wrap8.
  cbn [firstn skipn nth nth_error sum_bytes fold_right].
  unfold sum_bytes. set (total := fold_right Z.add 0 data).
  split; [f_equal; f_equal; lia |].
  split; [f_equal; lia | lia].
Qed.

Lemma next_sequence_spec : forall i,
  next_sequence (spec_sequence_byte i) = spec_sequence_byte (S i).
Proof.
  intros [| j]; [reflexivity |].
  unfold next_sequence, spec_sequence_byte, wrap8.
  rewrite Nat2Z.inj_succ.
  pose proof (Z.mod_pos_bound (Z.of_nat j) 254 ltac:(lia)) as Hb.
  rewrite (Z.mod_small (_ + 1 + 1)) by lia.
  destruct (255 <=? Z.of_nat j mod 254 + 1 + 1) eqn:E.
  - apply Z.leb_le in E.
    assert (Z.of_nat j mod 254 = 253) as Hj by lia.
    symmetry. rewrite <- Z.add_1_r, <- Z.add_mod_idemp_l, Hj by lia.
    reflexivity.
  - apply Z.leb_gt in E.
    rewrite <- Z.add_1_r, <- (Z.add_mod_idemp_l (Z.of_nat j)) by lia.
    rewrite (Z.mod_small (_ + 1)) by lia. reflexivity.
Qed.

Lemma spec_sequence_byte_range : forall i,
  0 <= spec_sequence_byte i <= 254 /\ (spec_sequence_byte i = 0 -> i = O).
Proof.
  intros [| j]; simpl.
  - split; [lia | reflexivity].
  - pose proof (Z.mod_pos_bound (Z.of_nat j) 254 ltac:(lia)). split; lia.
Qed.

(** The header byte 1 of a body, decrypted. *)
Lemma generate_command_body_sequence :
  forall mesh_key sequence n light_id data forward,
    all_u8 DEFAULT_ENCRYPT_KEY -> is_u8 sequence ->
    Z.lxor (key_at DEFAULT_ENCRYPT_KEY 1)
      (nth 1 (fst (generate_command_body DEFAULT_ENCRYPT_KEY mesh_key
                     sequence n light_id data forward)) 0) = sequence.
Proof.
  intros mesh_key sequence n light_id data forward Hk Hs.
  unfold generate_command_body, command_body, encrypt_body. simpl.
  unfold encrypt_byte. simpl Nat.ltb. cbv iota.
  rewrite wrap8_small
    by (apply lxor_is_u8; [apply nth_is_u8; assumption | assumption]).
  apply lxor_cancel.
Qed.

Lemma generate_bodies_nth : forall mesh_key calls j i body,
  all_u8 DEFAULT_ENCRYPT_KEY ->
  nth_error (generate_bodies DEFAULT_ENCRYPT_KEY mesh_key
               (spec_sequence_byte j) calls) i = Some body ->
  Z.lxor (key_at DEFAULT_ENCRYPT_KEY 1) (nth 1 body 0)
  = spec_sequence_byte (j + i).
Proof.
  intros mesh_key calls. induction calls as [| call rest IH];
    intros j i body Hk Hnth.
  - destruct i; discriminate.
  - cbn [generate_bodies] in Hnth.
    pose proof (generate_command_body_sequence mesh_key
                  (spec_sequence_byte j) (call_n call) (call_light_id call)
                  (call_data call) (call_forward call) Hk) as Hseq.
    assert (snd (generate_command_body DEFAULT_ENCRYPT_KEY mesh_key
                   (spec_sequence_byte j) (call_n call) (call_light_id call)
                   (call_data call) (call_forward call))
            = spec_sequence_byte (S j)) as Hnext
      by apply next_sequence_spec.
    destruct (generate_command_body DEFAULT_ENCRYPT_KEY mesh_key
                (spec_sequence_byte j) (call_n call) (call_light_id call)
                (call_data call) (call_forward call)) as [b s'].
    simpl in Hseq, Hnext. subst s'.
    destruct i as [| i]; simpl in Hnth.
    + injection Hnth as Hb. subst body. rewrite Nat.add_0_r.
      apply Hseq.
      pose proof (spec_sequence_byte_range j). unfold is_u8. lia.
    + rewrite <- Nat.add_succ_comm. apply IH; assumption.
Qed.

(** C2.  Across successive calls of [generate_command], starting with the
    static [sequence] at its initial value 0, the sequence byte (header
    byte 1, read back by undoing the header encryption) of the [i]-th
    frame is 0, 1, ..., 254, 1, 2, ..., 254, 1, ...: it is never 255 and
    never 0 again after the first frame. *)
Theorem generate_command_sequence_bytes :
  forall mesh_key calls i body,
    all_u8 DEFAULT_ENCRYPT_KEY ->
    nth_error (generate_bodies DEFAULT_ENCRYPT_KEY mesh_key 0 calls) i
      = Some body ->
    let seq_byte := Z.lxor (key_at DEFAULT_ENCRYPT_KEY 1) (nth 1 body 0) in
    seq_byte = spec_sequence_byte i
    /\ seq_byte <> 255
    /\ (seq_byte = 0 -> i = O).
Proof.
  intros mesh_key calls i body Hk Hnth seq_byte. subst seq_byte.
  rewrite (generate_bodies_nth mesh_key calls 0 i body Hk Hnth).
  simpl Nat.add. pose proof (spec_sequence_byte_range i) as [Hr H0].
  repeat split; [lia | exact H0].
Qed.

(** C10.  The frame [single_control] produces depends on the light id
    only through its low 12 bits: two light ids congruent modulo 4096 give
    the same frame (and the same next value of [sequence]) for the same
    light data, sequence counter and mesh key. *)
Theorem single_control_low_12_bits :
  forall mesh_key sequence light_id1 light_id2 light_data,
    light_id1 mod 4096 = light_id2 mod 4096 ->
    single_control DEFAULT_ENCRYPT_KEY DEFAULT_BLE_FASTCON_ADDRESS
      prepare_payload mesh_key sequence light_id1 light_data
    = single_control DEFAULT_ENCRYPT_KEY DEFAULT_BLE_FASTCON_ADDRESS
        prepare_payload mesh_key sequence light_id2 light_data.
Proof.
  intros mesh_key sequence l1 l2 light_data H.
  assert (wrap8 l1 = wrap8 l2) as Hlow.
  { unfold wrap8.
    rewrite <- (Z.mod_mod_divide l1 4096 256), <- (Z.mod_mod_divide l2 4096 256)
      by (exists 16; reflexivity).
    rewrite H. reflexivity. }
  assert (header_byte0 5 l1 true = header_byte0 5 l2 true) as Hhigh.
  { unfold header_byte0, wrap8. do 3 f_equal.
    change 15 with (Z.ones 4). rewrite !Z.land_ones by lia.
    change (2 ^ 4) with 16.
    rewrite !(Z.mod_mod_divide _ 256 16) by (exists 16; reflexivity).
    pose proof (Z.rem_mul_r l1 256 16 ltac:(lia) ltac:(lia)) as H1.
    pose proof (Z.rem_mul_r l2 256 16 ltac:(lia) ltac:(lia)) as H2.
    change (256 * 16) with 4096 in H1, H2. unfold wrap8 in Hlow. lia. }
  unfold single_control, inner_payload.
  destruct (10 <? Z.of_nat (length light_data)); [reflexivity |].
  unfold generate_command, generate_command_body, command_body.
  rewrite Hlow, Hhigh. reflexivity.
Qed.

End ProtocolProperties.

(** ** Properties of the command queue *)

Lemma queue_size_set_queue : forall q c,
  queue_size (set_queue q c) = Z.of_nat (length q).
Proof. reflexivity. Qed.

Lemma queueCommand_bound : forall now light_id data c,
  queue_size c <= max_queue_size_ c ->
  queue_size (fst (queueCommand now light_id data c)) <= max_queue_size_ c
  /\ max_queue_size_ (fst (queueCommand now light_id data c)) = max_queue_size_ c.
Proof.
  intros now light_id data c H. unfold queueCommand.
  destruct (max_queue_size_ c <=? queue_size c) eqn:E; simpl.
  - split; [exact H | reflexivity].
  - apply Z.leb_gt in E. rewrite queue_size_set_queue, length_app. simpl.
    unfold queue_size in E. split; [lia | reflexivity].
Qed.

Lemma loop_scheduler_bound : forall radio now c,
  queue_size (fst (loop_scheduler radio now c)) <= queue_size c
  /\ max_queue_size_ (fst (loop_scheduler radio now c)) = max_queue_size_ c.
Proof.
  intros radio now c. unfold loop_scheduler.
  destruct (adv_state_ c).
  - destruct (queue_ c) as [| cmd rest] eqn:Q; simpl; [lia |].
    assert (queue_size c = Z.of_nat (S (length rest))) as Hsz
      by (unfold queue_size; rewrite Q; reflexivity).
    destruct (negb _); simpl; [rewrite Hsz; unfold queue_size; simpl; lia |].
    destruct (negb _); simpl; rewrite Hsz; unfold queue_size; simpl; lia.
  - destruct (_ <=? _); simpl; unfold queue_size; simpl; lia.
  - destruct (_ <=? _); simpl; unfold queue_size; simpl; lia.
Qed.

Lemma apply_op_bound : forall op c,
  queue_size c <= max_queue_size_ c ->
  queue_size (fst (apply_op op c)) <= max_queue_size_ c
  /\ max_queue_size_ (fst (apply_op op c)) = max_queue_size_ c.
Proof.
  intros [now light_id data | radio now |] c H; simpl.
  - apply queueCommand_bound, H.
  - pose proof (loop_scheduler_bound radio now c). lia.
  - unfold queue_size in *. simpl. lia.
Qed.

Lemma run_ops_bound : forall ops c,
  queue_size c <= max_queue_size_ c ->
  queue_size (fst (run_ops ops c)) <= max_queue_size_ c.
Proof.
  induction ops as [| op rest IH]; intros c H; simpl.
  - exact H.
  - pose proof (apply_op_bound op c H) as [Hq Hm].
    destruct (apply_op op c) as [c1 ev1]. simpl in Hq, Hm.
    specialize (IH c1). rewrite Hm in IH. specialize (IH Hq).
    destruct (run_ops rest c1) as [c2 ev2]. exact IH.
Qed.

(** C4.  On a queue at capacity [queueCommand] returns at once with the
    controller, and so the queue, as it was, and a warning logged; as a
    consequence no series of calls takes the queue beyond the configured
    maximum. *)
Theorem queueCommand_capacity :
  forall now light_id data c,
    (max_queue_size_ c <= queue_size c ->
       queueCommand now light_id data c
       = (c, [WarnQueueFull (queue_size c) light_id]))
    /\ (queue_size c <= max_queue_size_ c ->
        forall ops,
          queue_size (fst (run_ops ops c)) <= max_queue_size_ c).
Proof.
  intros now light_id data c. split.
  - intro H. unfold queueCommand.
    apply Z.leb_le in H. rewrite H. reflexivity.
  - intros H ops. apply run_ops_bound, H.
Qed.

(** ** Properties of the transmission scheduler *)

(** Outside pairing mode the extended [loop] is the scheduler. *)
Lemma loop_normal_operation : forall radio now c p,
  pairing_mode_ p = false ->
  loop radio now (c, p)
  = ((fst (loop_scheduler radio now c), p), snd (loop_scheduler radio now c)).
Proof.
  intros radio now c p H. unfold loop. simpl. rewrite H.
  destruct (loop_scheduler radio now c). reflexivity.
Qed.

(** A failed radio call in [IDLE]: the warning is logged and the state stays
    [IDLE], but the command taken from the queue is gone. *)
Lemma loop_scheduler_radio_failure : forall radio now c cmd rest,
  adv_state_ c = IDLE ->
  queue_ c = cmd :: rest ->
  config_adv_data_raw radio (adv_data_raw (cmd_data cmd))
    (adv_data_len (cmd_data cmd)) <> ESP_OK
  \/ start_advertising radio (adv_interval_min_ c) (adv_interval_max_ c)
     <> ESP_OK ->
  fst (loop_scheduler radio now c) = set_queue rest c
  /\ exists err,
       err <> ESP_OK
       /\ (In (WarnConfigError err) (snd (loop_scheduler radio now c))
           \/ In (WarnStartError err) (snd (loop_scheduler radio now c))).
Proof.
  intros radio now c cmd rest Hs Hq Herr. unfold loop_scheduler.
  rewrite Hs, Hq.
  destruct (config_adv_data_raw radio _ _ =? ESP_OK) eqn:E1; simpl.
  - apply Z.eqb_eq in E1.
    destruct Herr as [Herr | Herr]; [contradiction |].
    destruct (start_advertising radio _ _ =? ESP_OK) eqn:E2; simpl.
    + apply Z.eqb_eq in E2. contradiction.
    + split; [reflexivity |]. eexists. split; [exact Herr |].
      right. simpl. auto.
  - apply Z.eqb_neq in E1. split; [reflexivity |].
    eexists. split; [exact E1 |]. left. simpl. auto.
Qed.

(** C1, at a failing input.  With two commands queued and the radio
    refusing the advertisement data, the tick logs the failure and holds
    [IDLE], but the first command has left the queue: the next tick, on a
    working radio, transmits the second command and the first is never
    sent. *)
Theorem loop_radio_failure_drops_frame :
  let first := mkCommand [1; 2; 3] 0 0 in
  let second := mkCommand [4; 5; 6] 0 0 in
  let c := set_queue [first; second] initial_controller in
  let radio_fails := mkRadio (fun _ _ => 258) (fun _ _ => ESP_OK) in
  let tick1 := loop_scheduler radio_fails 1000 c in
  let tick2 := loop_scheduler radio_ok 1001 (fst tick1) in
  adv_state_ (fst tick1) = IDLE
  /\ snd tick1 = [ConfigAdvDataRaw (adv_data_raw [1; 2; 3]) 10;
                  WarnConfigError 258]
  /\ queue_ (fst tick1) = [second]
  /\ snd tick2 = [ConfigAdvDataRaw (adv_data_raw [4; 5; 6]) 10;
                  StartAdvertising 32 64]
  /\ adv_state_ (fst tick2) = ADVERTISING
  /\ queue_ (fst tick2) = [].
Proof. repeat split. Qed.

(** ** Properties of the pairing state machine *)

Lemma session_frame_refl : forall s, session_frame s s.
Proof. intro s. unfold session_frame. auto. Qed.

Lemma session_frame_trans : forall s1 s2 s3,
  session_frame s1 s2 -> session_frame s2 s3 -> session_frame s1 s3.
Proof.
  unfold session_frame. intros s1 s2 s3 (A1 & A2 & A3 & A4 & A5)
    (B1 & B2 & B3 & B4 & B5).
  repeat split; congruence.
Qed.

Lemma only_stops_app : forall l1 l2,
  only_stops l1 -> only_stops l2 -> only_stops (l1 ++ l2).
Proof. intros l1 l2 H1 H2. apply Forall_app. split; assumption. Qed.

Lemma configured_raw_stops : forall l l',
  only_stops l -> configured_raw (l ++ l') = configured_raw l'.
Proof.
  intros l l' H. induction H as [| e l He Hl IH]; simpl.
  - reflexivity.
  - subst e. exact IH.
Qed.

Lemma pairing_phase_transition_frame : forall now elapsed s,
  session_frame s (fst (pairing_phase_transition now elapsed s))
  /\ only_stops (snd (pairing_phase_transition now elapsed s)).
Proof.
  intros now elapsed [c p]. unfold pairing_phase_transition.
  destruct (pairing_phase_ p); [destruct (4000 <=? elapsed) |]; simpl;
    (split; [unfold session_frame; simpl; auto | repeat constructor]).
Qed.

Lemma pairing_auto_increment_frame : forall now s,
  session_frame s (fst (pairing_auto_increment now s))
  /\ only_stops (snd (pairing_auto_increment now s)).
Proof.
  intros now [c p]. unfold pairing_auto_increment.
  destruct (pairing_phase_ p); [| destruct (negb _)]; simpl;
    (split; [unfold session_frame; simpl; auto | repeat constructor]).
Qed.

(** Advertising touches the advertisement state, its start time and the
    two packet counters only. *)
Lemma pairing_advertise_frame : forall radio now s,
  let s' := fst (pairing_advertise radio now s) in
  session_frame s s'
  /\ pairing_phase_ (snd s') = pairing_phase_ (snd s)
  /\ pairing_phase_start_ (snd s') = pairing_phase_start_ (snd s)
  /\ pairing_light_id_ (snd s') = pairing_light_id_ (snd s)
  /\ sequence_counter_ (snd s') = sequence_counter_ (snd s).
Proof.
  intros radio now [c p]. unfold pairing_advertise.
  destruct (match adv_state_ c with
            | IDLE => true
            | ADVERTISING => 100 <=? wrap32 (now - state_start_time_ c)
            | GAP => false
            end);
    [| simpl; unfold session_frame; auto 10].
  destruct (pairing_phase_ p) eqn:Hph.
  - destruct (build_discovery_advertisement (counter p)) as [adv n].
    destruct (negb _); [| destruct (negb _)]; simpl;
      unfold session_frame; simpl; auto 10.
  - destruct (build_pairing_advertisement _ _ _) as [adv n].
    destruct (negb _); [| destruct (negb _)]; simpl;
      unfold session_frame; simpl; auto 10.
Qed.

(** One tick in pairing mode, whatever the phase: once 60,000 ms have
    elapsed since [pairing_start_time_] it leaves pairing mode, before that
    it stays in the session. *)
Lemma loop_pairing_timeout :
  forall radio now c p,
    pairing_mode_ p = true ->
    let elapsed := wrap32 (now - pairing_start_time_ p) in
    let s' := fst (loop radio now (c, p)) in
    let ev := snd (loop radio now (c, p)) in
    (60000 <= elapsed ->
       pairing_mode_ (snd s') = false
       /\ adv_state_ (fst s') = IDLE
       /\ queue_ (fst s') = queue_ c
       /\ (exists stops,
             only_stops stops
             /\ ev = stops ++ [StopAdvertising; StartScanning 300])
       /\ (forall radio' now',
             loop radio' now' s'
             = ((fst (loop_scheduler radio' now' (fst s')), snd s'),
                snd (loop_scheduler radio' now' (fst s')))))
    /\ (elapsed < 60000 ->
        pairing_mode_ (snd s') = true
        /\ pairing_start_time_ (snd s') = pairing_start_time_ p
        /\ queue_ (fst s') = queue_ c).
Proof.
  intros radio now c p Hmode elapsed s' ev. subst s' ev.
  unfold loop. cbn [fst snd]. rewrite Hmode. fold elapsed.
  pose proof (pairing_phase_transition_frame now elapsed (c, p)) as [F1 S1].
  destruct (pairing_phase_transition now elapsed (c, p)) as [s1 ev1].
  pose proof (pairing_auto_increment_frame now s1) as [F2 S2].
  destruct (pairing_auto_increment now s1) as [s2 ev2].
  cbn [fst snd] in F1, S1, F2, S2.
  pose proof (session_frame_trans _ _ _ F1 F2) as F.
  split; intro H.
  - apply Z.leb_le in H. rewrite H. cbn [fst snd].
    destruct F as (Fq & _). cbn [fst snd] in Fq.
    repeat split.
    + exact Fq.
    + exists (ev1 ++ ev2). split.
      * apply only_stops_app; assumption.
      * rewrite <- app_assoc. reflexivity.
    + intros radio' now'.
      destruct s2 as [c2 p2]. apply loop_normal_operation. reflexivity.
  - apply Z.ltb_lt in H. rewrite Z.ltb_antisym in H.
    apply negb_true_iff in H. rewrite H.
    pose proof (pairing_advertise_frame radio now s2) as [F3 _].
    destruct (pairing_advertise radio now s2) as [s3 ev3].
    cbn [fst snd] in *.
    destruct (session_frame_trans _ _ _ F F3) as (Fq & _ & Fm & Fs & _).
    cbn [fst snd] in Fq, Fm, Fs. repeat split; congruence.
Qed.

(** A session that has not timed out is still in pairing mode, with the
    start time and the queue it began with. *)
Lemma run_loop_in_session : forall ticks c p,
  pairing_mode_ p = true ->
  Forall (fun tick => wrap32 (snd tick - pairing_start_time_ p) < 60000) ticks ->
  let s := fst (run_loop ticks (c, p)) in
  pairing_mode_ (snd s) = true
  /\ pairing_start_time_ (snd s) = pairing_start_time_ p
  /\ queue_ (fst s) = queue_ c.
Proof.
  induction ticks as [| [radio now] ticks IH]; intros c p Hmode Hall; simpl.
  - auto.
  - inversion Hall as [| tick rest Hnow Hrest]; subst. simpl in Hnow.
    destruct (loop_pairing_timeout radio now c p Hmode) as [_ Hstay].
    destruct (Hstay Hnow) as (Hm & Hs & Hq).
    destruct (loop radio now (c, p)) as [[c1 p1] ev]. cbn [fst snd] in *.
    rewrite <- Hs in Hrest.
    destruct (IH c1 p1 Hm Hrest) as (Hm' & Hs' & Hq').
    destruct (run_loop ticks (c1, p1)) as [s' evs]. cbn [fst snd] in *.
    repeat split; congruence.
Qed.

(** C7.  A pairing session begun by [pair_device] at time [t0], ticked any
    number of times before its timeout (so in either phase), leaves pairing
    mode at the tick that comes 60,000 ms after [t0] (or later): that tick
    stops advertising, starts scanning again and issues no advertisement,
    the queue is as it was when the session began, and from then on [loop]
    is the transmission scheduler. *)
Theorem pairing_session_timeout :
  forall s0 t0 new_light_id group_id ticks radio now,
    Forall (fun tick => wrap32 (snd tick - t0) < 60000) ticks ->
    60000 <= wrap32 (now - t0) ->
    let s := fst (run_loop ticks
                    (fst (pair_device t0 new_light_id group_id s0))) in
    let s' := fst (loop radio now s) in
    let ev := snd (loop radio now s) in
    pairing_mode_ (snd s) = true
    /\ pairing_mode_ (snd s') = false
    /\ adv_state_ (fst s') = IDLE
    /\ queue_ (fst s') = queue_ (fst s0)
    /\ (exists stops,
          only_stops stops
          /\ ev = stops ++ [StopAdvertising; StartScanning 300])
    /\ (forall radio' now',
          loop radio' now' s'
          = ((fst (loop_scheduler radio' now' (fst s')), snd s'),
             snd (loop_scheduler radio' now' (fst s')))).
Proof.
  intros [c0 p0] t0 new_light_id group_id ticks radio now Hticks Hnow s.
  subst s. unfold pair_device. cbn [fst].
  set (c1 := set_adv_state IDLE c0).
  set (p1 := mkPairing true DISCOVERY t0 (pairing_phase_start_ p0)
               new_light_id new_light_id (sequence_counter_ p0)
               (counter p0) (pairing_counter p0)).
  destruct (run_loop_in_session ticks c1 p1 eq_refl Hticks) as (Hm & Hs & Hq).
  destruct (fst (run_loop ticks (c1, p1))) as [c p]. cbn [fst snd] in Hm, Hs, Hq.
  destruct (loop_pairing_timeout radio now c p Hm) as [Hexit _].
  change (pairing_start_time_ p1) with t0 in Hs. rewrite Hs in Hexit.
  destruct (Hexit Hnow) as (E1 & E2 & E3 & E4 & E5).
  cbn [fst snd]. repeat split; try assumption.
  rewrite E3, Hq. reflexivity.
Qed.

(** The bytes of a pairing advertisement the radio is given. *)
Lemma pairing_raw_bytes : forall k0 k1 k2 k3 id cnt,
  let raw := pairing_adv_data_raw
               (fst (build_pairing_advertisement [k0; k1; k2; k3] id cnt)) in
  nth 7 raw 0 = 110
  /\ nth 8 raw 0 = cnt
  /\ nth 9 raw 0 = wrap8 (Z.land id 255)
  /\ nth 10 raw 0 = wrap8 (Z.land (Z.shiftr id 8) 255)
  /\ firstn 6 (skipn 17 raw) = [57; 57; k0; k1; k2; k3].
Proof.
  intros k0 k1 k2 k3 id cnt raw. subst raw.
  unfold build_pairing_advertisement, pairing_adv_data_raw, pairing_copy_len,
    adv_prefix.
  cbn [fst app length nth].
  change (Z.to_nat (Z.min (Z.of_nat 32 - 6) 25)) with 25%nat.
  cbn [firstn skipn nth]. repeat split.
Qed.

(** What a tick of the pairing phase hands to the radio. *)
Lemma pairing_advertise_raw : forall radio now c p raw,
  pairing_phase_ p = PAIRING ->
  configured_raw (snd (pairing_advertise radio now (c, p))) = Some raw ->
  raw = pairing_adv_data_raw
          (fst (build_pairing_advertisement (mesh_key_ c)
                  (pairing_light_id_ p) (pairing_counter p))).
Proof.
  intros radio now c p raw Hph. unfold pairing_advertise. rewrite Hph.
  destruct (build_pairing_advertisement _ _ _) as [adv n]. cbn [fst].
  destruct (adv_state_ c); [| destruct (100 <=? _) |];
    try (simpl; discriminate);
    (destruct (negb _); [| destruct (negb _)]); simpl; congruence.
Qed.

Lemma pairing_auto_increment_light : forall now c p,
  pairing_phase_ p = PAIRING ->
  let p' := snd (fst (pairing_auto_increment now (c, p))) in
  pairing_light_id_ p'
  = wrap32 (pairing_base_light_id_ p
            + wrap32 (now - pairing_phase_start_ p) / 5000)
  /\ pairing_phase_ p' = PAIRING
  /\ pairing_phase_start_ p' = pairing_phase_start_ p.
Proof.
  intros now c p Hph. unfold pairing_auto_increment. rewrite Hph.
  destruct (negb _) eqn:E; simpl.
  - auto.
  - apply negb_false_iff, Z.eqb_eq in E. auto.
Qed.

(** The auto-increment leaves the packet counter of
    [build_pairing_advertisement] alone: what it sets back to 0x50 is the
    member [sequence_counter_], which no advertisement reads. *)
Lemma pairing_auto_increment_keeps_counter : forall now s,
  pairing_counter (snd (fst (pairing_auto_increment now s)))
  = pairing_counter (snd s).
Proof.
  intros now [c p]. unfold pairing_auto_increment.
  destruct (pairing_phase_ p); [| destruct (negb _)]; reflexivity.
Qed.

Lemma pairing_auto_increment_phase : forall now s,
  pairing_phase_ (snd (fst (pairing_auto_increment now s)))
  = pairing_phase_ (snd s).
Proof.
  intros now [c p]. unfold pairing_auto_increment.
  destruct (pairing_phase_ p) eqn:E; [| destruct (negb _)]; simpl;
    congruence.
Qed.

Lemma pairing_phase_transition_phase : forall now elapsed s,
  let p' := snd (fst (pairing_phase_transition now elapsed s)) in
  pairing_phase_ p' = DISCOVERY \/
  (pairing_phase_ p' = PAIRING
   /\ pairing_light_id_ p' = pairing_light_id_ (snd s)).
Proof.
  intros now elapsed [c p]. unfold pairing_phase_transition.
  destruct (pairing_phase_ p) eqn:E; [destruct (4000 <=? elapsed) |]; simpl;
    auto.
Qed.

(** The light id a tick of the pairing phase leaves: the base id plus the
    number of whole 5,000 ms slots since the phase began. *)
Lemma pairing_light_id_slot : forall radio now c p,
  pairing_mode_ p = true ->
  let p' := snd (fst (loop radio now (c, p))) in
  pairing_phase_ p' = PAIRING ->
  pairing_light_id_ p'
  = wrap32 (pairing_base_light_id_ p
            + wrap32 (now - pairing_phase_start_ p') / 5000).
Proof.
  intros radio now c p Hmode p'. subst p'.
  unfold loop. cbn [fst snd]. rewrite Hmode.
  set (elapsed := wrap32 (now - pairing_start_time_ p)).
  pose proof (pairing_phase_transition_frame now elapsed (c, p)) as [F1 _].
  destruct (pairing_phase_transition now elapsed (c, p)) as [[c1 p1] ev1].
  cbn [fst snd] in F1. destruct F1 as (_ & _ & _ & _ & Hbase).
  cbn [fst snd] in Hbase. rewrite <- Hbase.
  pose proof (pairing_auto_increment_light now c1 p1) as HI.
  pose proof (pairing_auto_increment_frame now (c1, p1)) as [F2 _].
  pose proof (pairing_auto_increment_phase now (c1, p1)) as Hsame.
  destruct (pairing_auto_increment now (c1, p1)) as [[c2 p2] ev2].
  cbn [fst snd] in HI, Hsame.
  destruct (60000 <=? elapsed).
  - cbn [fst snd]. simpl. intro Hph. rewrite Hsame in Hph.
    destruct (HI Hph) as (Hid & _ & Hst). rewrite Hid, Hst. reflexivity.
  - pose proof (pairing_advertise_frame radio now (c2, p2))
      as (_ & A1 & A2 & A3 & _).
    destruct (pairing_advertise radio now (c2, p2)) as [[c3 p3] ev3].
    cbn [fst snd] in *. intro Hph. rewrite A1, Hsame in Hph.
    destruct (HI Hph) as (Hid & _ & Hst). rewrite A3, A2, Hid, Hst.
    reflexivity.
Qed.

Lemma pairing_phase_transition_keeps_counter : forall now elapsed s,
  pairing_counter (snd (fst (pairing_phase_transition now elapsed s)))
  = pairing_counter (snd s).
Proof.
  intros now elapsed [c p]. unfold pairing_phase_transition.
  destruct (pairing_phase_ p); [destruct (4000 <=? elapsed) |]; reflexivity.
Qed.

(** What a tick that ends in the pairing phase hands to the radio: the
    pairing advertisement for the light id the tick leaves, numbered with
    the packet counter the tick found. *)
Lemma loop_pairing_raw : forall radio now c p raw,
  pairing_mode_ p = true ->
  pairing_phase_ (snd (fst (loop radio now (c, p)))) = PAIRING ->
  configured_raw (snd (loop radio now (c, p))) = Some raw ->
  raw = pairing_adv_data_raw
          (fst (build_pairing_advertisement (mesh_key_ c)
                  (pairing_light_id_ (snd (fst (loop radio now (c, p)))))
                  (pairing_counter p))).
Proof.
  intros radio now c p raw Hmode.
  unfold loop. cbn [fst snd]. rewrite Hmode.
  set (elapsed := wrap32 (now - pairing_start_time_ p)).
  pose proof (pairing_phase_transition_frame now elapsed (c, p)) as [F1 S1].
  pose proof (pairing_phase_transition_keeps_counter now elapsed (c, p)) as K1.
  destruct (pairing_phase_transition now elapsed (c, p)) as [s1 ev1].
  pose proof (pairing_auto_increment_frame now s1) as [F2 S2].
  pose proof (pairing_auto_increment_keeps_counter now s1) as K2.
  destruct (pairing_auto_increment now s1) as [[c2 p2] ev2].
  cbn [fst snd] in F1, S1, F2, S2, K1, K2.
  destruct (session_frame_trans _ _ _ F1 F2) as (_ & Hkey & _).
  cbn [fst snd] in Hkey.
  destruct (60000 <=? elapsed).
  - cbn [fst snd]. intros _ Hraw.
    rewrite app_assoc, configured_raw_stops in Hraw
      by (apply only_stops_app; assumption).
    discriminate.
  - pose proof (pairing_advertise_frame radio now (c2, p2))
      as (_ & A1 & _ & A3 & _).
    pose proof (pairing_advertise_raw radio now c2 p2 raw) as HR.
    destruct (pairing_advertise radio now (c2, p2)) as [[c3 p3] ev3].
    cbn [fst snd] in *. intros Hph Hraw.
    rewrite app_assoc, configured_raw_stops in Hraw
      by (apply only_stops_app; assumption).
    rewrite A1 in Hph. specialize (HR Hph Hraw).
    rewrite A3, <- Hkey, <- K1, <- K2. exact HR.
Qed.

(** What a pairing advertisement holds, for every key and light id: every
    advertisement a tick of the pairing phase hands to the radio is a
    pairing advertisement (command byte 0x6e) whose two light id bytes are
    the low and then the high byte of the current light id, and which
    carries, after the characters "99", the four bytes of the mesh key as
    they are. *)
Lemma pairing_advertisement_contents :
  forall radio now c p raw,
    pairing_mode_ p = true ->
    length (mesh_key_ c) = 4%nat ->
    let s' := fst (loop radio now (c, p)) in
    let ev := snd (loop radio now (c, p)) in
    pairing_phase_ (snd s') = PAIRING ->
    configured_raw ev = Some raw ->
    nth 7 raw 0 = 110
    /\ is_u8 (nth 9 raw 0) /\ is_u8 (nth 10 raw 0)
    /\ nth 9 raw 0 + 256 * nth 10 raw 0 = pairing_light_id_ (snd s') mod 65536
    /\ firstn 6 (skipn 17 raw) = [57; 57] ++ mesh_key_ c.
Proof.
  intros radio now c p raw Hmode Hlen s' ev Hph Hraw. subst s' ev.
  pose proof (loop_pairing_raw radio now c p raw Hmode Hph Hraw) as HR.
  set (id := pairing_light_id_ (snd (fst (loop radio now (c, p))))) in *.
  destruct (mesh_key_ c) as [| k0 [| k1 [| k2 [| k3 [| k4 rest]]]]];
    try discriminate.
  destruct (pairing_raw_bytes k0 k1 k2 k3 id (pairing_counter p))
    as (R7 & _ & R9 & R10 & Rk).
  rewrite <- HR in R7, R9, R10, Rk.
  rewrite R7, R9, R10, Rk.
  repeat split; try apply wrap8_is_u8.
  unfold wrap8. change 255 with (Z.ones 8).
  rewrite !Z.land_ones, Z.shiftr_div_pow2 by lia.
  change (2 ^ 8) with 256. rewrite !Z.mod_mod by lia.
  change 65536 with (256 * 256).
  rewrite (Z.rem_mul_r id 256 256) by lia. reflexivity.
Qed.

(** The packet counter in every advertisement of the pairing phase is the
    value the static [pairing_counter] had before the tick, whether or not
    the tick moved to a new light id. *)
Lemma pairing_advertisement_counter_byte :
  forall radio now c p raw,
    pairing_mode_ p = true ->
    length (mesh_key_ c) = 4%nat ->
    pairing_phase_ (snd (fst (loop radio now (c, p)))) = PAIRING ->
    configured_raw (snd (loop radio now (c, p))) = Some raw ->
    nth 8 raw 0 = pairing_counter p.
Proof.
  intros radio now c p raw Hmode Hlen Hph Hraw.
  pose proof (loop_pairing_raw radio now c p raw Hmode Hph Hraw) as HR.
  destruct (mesh_key_ c) as [| k0 [| k1 [| k2 [| k3 [| k4 rest]]]]];
    try discriminate.
  destruct (pairing_raw_bytes k0 k1 k2 k3
              (pairing_light_id_ (snd (fst (loop radio now (c, p)))))
              (pairing_counter p)) as (_ & R8 & _).
  rewrite <- HR in R8. exact R8.
Qed.

(** C5, at a failing input.  A controller with the mesh key AB CD EF 01 is
    in the pairing phase of a session for light 1 (begun at 0 ms, pairing
    phase since 4,000 ms); the tick at 4,100 ms hands the radio a pairing
    advertisement.  It carries the light id, low byte first, but after the
    characters "99" come the key bytes AB CD EF 01 themselves: neither what
    is handed to the radio nor the whole advertisement holds the key in
    ASCII-hex form (its hexadecimal rendering in either case of the
    letters; the key bytes are no hexadecimal digit characters), although
    [build_pairing_advertisement] announces the conversion ("Convert mesh
    key bytes to ASCII hex representation"). *)
Theorem pairing_advertisement_key_unconverted :
  let c := mkController [] 100 IDLE 0 example_binary_key 32 64 50 10 in
  let p := mkPairing true PAIRING 0 4000 1 1 0 0 80 in
  let tick := loop radio_ok 4100 (c, p) in
  pairing_phase_ (snd (fst tick)) = PAIRING
  /\ pairing_light_id_ (snd (fst tick)) = 1
  /\ exists raw,
       configured_raw (snd tick) = Some raw
       /\ nth 7 raw 0 = 110
       /\ (nth 9 raw 0, nth 10 raw 0) = (1, 0)
       /\ firstn 6 (skipn 17 raw) = [57; 57; 171; 205; 239; 1]
       /\ ~ spec_embeds_ascii_hex example_binary_key raw
       /\ ~ spec_embeds_ascii_hex example_binary_key
            (fst (build_pairing_advertisement example_binary_key 1 80)).
Proof.
  intros c p tick.
  split; [reflexivity |]. split; [reflexivity |].
  eexists. split; [vm_compute; reflexivity |].
  split; [reflexivity |]. split; [reflexivity |]. split; [reflexivity |].
  split.
  - intros (text & [[upper ->] | [_ Hhex]] & Hin).
    + destruct upper; vm_compute in Hin; discriminate.
    + vm_compute in Hhex. discriminate.
  - intros (text & [[upper ->] | [_ Hhex]] & Hin).
    + destruct upper; vm_compute in Hin; discriminate.
    + vm_compute in Hhex. discriminate.
Qed.

(** C6, at a failing input.  A session for light 1 starts at 0 ms; the
    ticks at 4,000 ms (start of the pairing phase) and 9,000 ms (first
    increment) each issue a pairing advertisement.  The light id goes from
    1 to 2 and [sequence_counter_] is set to 0x50, but the packet counter in
    the advertisement after the increment is 0x51: it was not reset. *)
Theorem pairing_counter_not_reset :
  let s1 := fst (pair_device 0 1 1 (initial_controller, initial_pairing)) in
  let tick2 := loop radio_ok 4000 s1 in
  let tick3 := loop radio_ok 9000 (fst tick2) in
  pairing_phase_ (snd (fst tick2)) = PAIRING
  /\ pairing_light_id_ (snd (fst tick2)) = 1
  /\ option_map (fun raw => nth 8 raw 0) (configured_raw (snd tick2)) = Some 80
  /\ pairing_light_id_ (snd (fst tick3)) = 2
  /\ sequence_counter_ (snd (fst tick3)) = 80
  /\ option_map (fun raw => (nth 9 raw 0, nth 8 raw 0))
       (configured_raw (snd tick3)) = Some (2, 81).
Proof. vm_compute. repeat split. Qed.

(** ** Properties of the light-state encoder *)

(** A light that is on in a mode with the white capability: the result is
    the one byte [static_cast<uint8_t>(brightness)]; the byte
    [0x80 + static_cast<uint8_t>(brightness)] stored in [light_data[0]] is
    not what is returned. *)
Lemma get_light_data_white : forall values,
  is_on values = true ->
  has_capability (get_color_mode values) WHITE = true ->
  get_light_data values
  = option_map (fun b => [b])
      (float_to_u8 (fmin (fmul (get_brightness values) (f32 127)) (f32 127))).
Proof.
  intros values Hon Hw. unfold get_light_data. rewrite Hon, Hw. simpl.
  destruct (float_to_u8 _); reflexivity.
Qed.

(** C8, at failing inputs.  A light that is on in white mode (colour mode
    ON_OFF | BRIGHTNESS | WHITE) gives one byte, but without the on bit:
    127 (not 0xFF) at full brightness, 63 (not 0xBF) at half brightness. *)
Theorem get_light_data_white_without_on_bit :
  let zero := f32 0 in
  let half := fdiv (f32 1) (f32 2) in
  let white b := mkValues true 7 b zero zero zero zero zero zero in
  get_light_data (white (f32 1)) = Some [127]
  /\ get_light_data (white half) = Some [63]
  /\ Z.lor 128 127 = 255 /\ Z.lor 128 63 = 191.
Proof. vm_compute. repeat split. Qed.

(** ** Properties of the debounce / dedup layer *)

Lemma run_light_app : forall evs1 evs2 l,
  run_light (evs1 ++ evs2) l
  = (fst (run_light evs2 (fst (run_light evs1 l))),
     snd (run_light evs1 l) ++ snd (run_light evs2 (fst (run_light evs1 l)))).
Proof.
  induction evs1 as [| e evs1 IH]; intros evs2 l; simpl.
  - destruct (run_light evs2 l); reflexivity.
  - destruct e as [now adv_data | now].
    + apply IH.
    + destruct (light_loop now l) as [l1 out].
      rewrite IH. destruct (run_light evs1 l1) as [l2 outs]. simpl.
      destruct out; reflexivity.
Qed.

(** The three ways a tick ends. *)
Lemma light_loop_cases : forall now l,
  light_loop now l = (l, None)
  \/ (pending_data_ l = last_sent_data_ l
      /\ has_pending_command_ (fst (light_loop now l)) = false
      /\ pending_data_ (fst (light_loop now l)) = pending_data_ l
      /\ snd (light_loop now l) = None)
  \/ (pending_data_ l <> last_sent_data_ l
      /\ has_pending_command_ l = true
      /\ has_pending_command_ (fst (light_loop now l)) = false
      /\ pending_data_ (fst (light_loop now l)) = pending_data_ l
      /\ last_sent_data_ (fst (light_loop now l)) = pending_data_ l
      /\ snd (light_loop now l) = Some (pending_data_ l)).
Proof.
  intros now l. unfold light_loop.
  destruct (has_pending_command_ l) eqn:Hp; simpl; [| auto].
  destruct (_ <? DEBOUNCE_MS); [auto |].
  destruct (_ <? MIN_INTERVAL_MS); [auto |].
  destruct (list_eq_dec Z.eq_dec (pending_data_ l) (last_sent_data_ l));
    simpl; auto 10.
Qed.

(** Without a pending command ticks do nothing. *)
Lemma ticks_idle : forall ticks l,
  has_pending_command_ l = false ->
  run_light (map Tick ticks) l = (l, []).
Proof.
  induction ticks as [| now ticks IH]; intros l H; simpl.
  - reflexivity.
  - unfold light_loop. rewrite H. simpl. rewrite IH by exact H. reflexivity.
Qed.

(** Ticks never hand over a command equal to the last one sent. *)
Lemma ticks_duplicate : forall ticks l,
  pending_data_ l = last_sent_data_ l ->
  snd (run_light (map Tick ticks) l) = [].
Proof.
  induction ticks as [| now ticks IH]; intros l H; simpl.
  - reflexivity.
  - destruct (light_loop_cases now l)
      as [E | [(_ & Hf & _ & Ho) | (Hne & _)]].
    + rewrite E. rewrite (surjective_pairing (run_light _ l)).
      rewrite IH by exact H. reflexivity.
    + destruct (light_loop now l) as [l1 out]. simpl in Hf, Ho. subst out.
      rewrite ticks_idle by exact Hf. reflexivity.
    + contradiction.
Qed.

(** Between two updates ticks hand over at most one command, and if they do
    it is the pending one, recorded as the last one sent. *)
Lemma ticks_at_most_one : forall ticks l,
  let r := run_light (map Tick ticks) l in
  pending_data_ (fst r) = pending_data_ l
  /\ (snd r = []
      \/ (snd r = [pending_data_ l]
          /\ last_sent_data_ (fst r) = pending_data_ l)).
Proof.
  induction ticks as [| now ticks IH]; intros l; simpl.
  - auto.
  - destruct (light_loop_cases now l)
      as [E | [(_ & Hf & Hpd & Ho) | (_ & _ & Hf & Hpd & Hls & Ho)]].
    + rewrite E. specialize (IH l). simpl in IH.
      destruct (run_light (map Tick ticks) l) as [l2 outs]. exact IH.
    + destruct (light_loop now l) as [l1 out]. simpl in Hf, Hpd, Ho.
      subst out. rewrite ticks_idle by exact Hf. simpl. auto.
    + destruct (light_loop now l) as [l1 out]. simpl in Hf, Hpd, Hls, Ho.
      subst out. rewrite ticks_idle by exact Hf. simpl. auto.
Qed.

(** C9.  Whatever the state of a light and whenever the ticks come, two
    consecutive updates with the same encoded command make the light hand
    at most one command to the queue.  A pending command equal to the last
    one sent is never handed over, and the tick that gets past the two time
    gates clears its pending flag. *)
Theorem debounce_dedup :
  forall l adv_data t1 t2 ticks1 ticks2,
    (length (snd (run_light (Update t1 adv_data :: map Tick ticks1
                             ++ Update t2 adv_data :: map Tick ticks2) l))
     <= 1)%nat
    /\ forall now l',
         pending_data_ l' = last_sent_data_ l' ->
         snd (light_loop now l') = None
         /\ (has_pending_command_ l' = true ->
             DEBOUNCE_MS <= wrap32 (now - last_state_change_ l') ->
             MIN_INTERVAL_MS <= wrap32 (now - last_command_sent_ l') ->
             has_pending_command_ (fst (light_loop now l')) = false).
Proof.
  intros l adv_data t1 t2 ticks1 ticks2. split.
  - cbn [run_light]. rewrite run_light_app. cbn [snd].
    set (l1 := write_state t1 adv_data l).
    destruct (ticks_at_most_one ticks1 l1) as (Hpd & [H1 | (H1 & Hls)]).
    + rewrite H1. cbn [app run_light].
      destruct (ticks_at_most_one ticks2
                  (write_state t2 adv_data (fst (run_light (map Tick ticks1) l1))))
        as (_ & [H2 | (H2 & _)]); rewrite H2; simpl; lia.
    + rewrite H1. cbn [run_light].
      rewrite ticks_duplicate; [simpl; lia |].
      simpl. rewrite Hls. reflexivity.
  - intros now l' Heq. split.
    + destruct (light_loop_cases now l')
        as [E | [(_ & _ & _ & Ho) | (Hne & _)]];
        [rewrite E; reflexivity | exact Ho | contradiction].
    + intros Hp Hd Hm. unfold light_loop. rewrite Hp. simpl.
      apply Z.ltb_ge in Hd, Hm. rewrite Hd, Hm.
      destruct (list_eq_dec Z.eq_dec (pending_data_ l') (last_sent_data_ l'));
        reflexivity.
Qed.

(** ** The theorems at concrete inputs *)

Ltac solve_u8 :=
  unfold all_u8; repeat (apply Forall_cons || apply Forall_nil);
  unfold is_u8; lia.

Lemma generate_command_sequence_bytes_witness :
  let bodies := generate_bodies example_encrypt_key example_mesh_key 0
                  (repeat example_call 256) in
  let seq_byte := Z.lxor (key_at example_encrypt_key 1)
                    (nth 1 (nth 255 bodies []) 0) in
  seq_byte = spec_sequence_byte 255
  /\ seq_byte <> 255
  /\ (seq_byte = 0 -> 255%nat = O).
Proof.
  intro bodies.
  apply (generate_command_sequence_bytes example_encrypt_key example_mesh_key
           (repeat example_call 256) 255 (nth 255 bodies [])).
  - solve_u8.
  - vm_compute. reflexivity.
Defined.

Lemma generate_command_checksum_witness :
  let frame := fst (generate_command_body example_encrypt_key example_mesh_key
                      7 5 1 [34; 1; 255] true) in
  let plain := spec_decrypt example_encrypt_key example_mesh_key frame in
  length frame = (length [34; 1; 255] + 4)%nat
  /\ length plain = length frame
  /\ nth_error plain 3 = Some (spec_sum_except_3 plain mod 256)
  /\ spec_sum_except_3 plain mod 256 = nth 3 plain 0
  /\ spec_sum_except_3 plain
     = header_byte0 5 1 true + 7 + nth 3 example_mesh_key 0
       + sum_bytes [34; 1; 255].
Proof.
  apply (generate_command_checksum example_encrypt_key example_mesh_key
           7 5 1 [34; 1; 255] true); solve_u8.
Defined.

Lemma single_control_low_12_bits_witness :
  single_control example_encrypt_key example_address example_prepare_payload
    example_mesh_key 7 1 [255]
  = single_control example_encrypt_key example_address example_prepare_payload
      example_mesh_key 7 4097 [255].
Proof.
  apply (single_control_low_12_bits example_encrypt_key example_address
           example_prepare_payload example_mesh_key 7 1 4097 [255]).
  reflexivity.
Defined.

Lemma queueCommand_capacity_witness :
  let c := mkController [mkCommand [1] 0 0] 1 IDLE 0 example_mesh_key
             32 64 50 10 in
  queueCommand 5 7 [9] c = (c, [WarnQueueFull 1 7])
  /\ queue_size
       (fst (run_ops [OpQueueCommand 5 7 [9]; OpLoop radio_ok 6;
                      OpQueueCommand 7 7 [9]; OpQueueCommand 8 7 [9]] c)) <= 1.
Proof.
  intro c.
  destruct (queueCommand_capacity 5 7 [9] c) as [Hfull Hbound].
  split.
  - apply Hfull. vm_compute. discriminate.
  - apply Hbound. vm_compute. discriminate.
Defined.

Lemma pairing_session_timeout_witness :
  let s0 := (initial_controller, initial_pairing) in
  let ticks := [(radio_ok, 1100); (radio_ok, 5000); (radio_ok, 60999)] in
  let s := fst (run_loop ticks (fst (pair_device 1000 1 1 s0))) in
  let s' := fst (loop radio_ok 61000 s) in
  let ev := snd (loop radio_ok 61000 s) in
  pairing_mode_ (snd s) = true
  /\ pairing_mode_ (snd s') = false
  /\ adv_state_ (fst s') = IDLE
  /\ queue_ (fst s') = queue_ (fst s0)
  /\ (exists stops,
        only_stops stops
        /\ ev = stops ++ [StopAdvertising; StartScanning 300])
  /\ (forall radio' now',
        loop radio' now' s'
        = ((fst (loop_scheduler radio' now' (fst s')), snd s'),
           snd (loop_scheduler radio' now' (fst s')))).
Proof.
  intros s0 ticks.
  apply (pairing_session_timeout s0 1000 1 1 ticks radio_ok 61000).
  - repeat constructor.
  - vm_compute. discriminate.
Defined.

Lemma debounce_dedup_witness :
  let l := mkLight 1 [] [] 0 0 false in
  let sent := mkLight 1 [128] [128] 1000 700 true in
  let evs := Update 0 [128] :: map Tick [50; 100; 400; 500]
             ++ Update 600 [128] :: map Tick [700; 1000; 1100] in
  (length (snd (run_light evs l)) <= 1)%nat
  /\ snd (light_loop 1200 sent) = None
  /\ has_pending_command_ (fst (light_loop 1200 sent)) = false.
Proof.
  intros l sent evs.
  destruct (debounce_dedup l [128] 0 600 [50; 100; 400; 500] [700; 1000; 1100])
    as [Hcount Hskip].
  destruct (Hskip 1200 sent eq_refl) as [Hnone Hclear].
  split; [exact Hcount |]. split; [exact Hnone |].
  apply Hclear.
  - reflexivity.
  - vm_compute. discriminate.
  - vm_compute. discriminate.
Defined.

(** * Further properties *)

(** ** The codec read back *)

Lemma encrypt_body_is_u8 : forall key mesh_key body,
  all_u8 (encrypt_body key mesh_key body).
Proof.
  intros key mesh_key body. unfold encrypt_body. generalize 0%nat.
  induction body as [| b body IH]; intro i; simpl.
  - constructor.
  - constructor; [| apply IH].
    unfold encrypt_byte. destruct (Nat.ltb i 4); apply wrap8_is_u8.
Qed.

(** Three bit fields that do not overlap add up. *)
Lemma header_fields : forall a b (f : bool),
  0 <= a < 16 -> 0 <= b < 8 ->
  Z.lor (Z.lor a (Z.shiftl b 4)) (if f then 128 else 0)
  = a + 16 * b + (if f then 128 else 0).
Proof.
  intros a b f Ha Hb.
  assert (a = 0 \/ a = 1 \/ a = 2 \/ a = 3 \/ a = 4 \/ a = 5 \/ a = 6 \/ a = 7
          \/ a = 8 \/ a = 9 \/ a = 10 \/ a = 11 \/ a = 12 \/ a = 13 \/ a = 14
          \/ a = 15) as Ha' by lia.
  assert (b = 0 \/ b = 1 \/ b = 2 \/ b = 3 \/ b = 4 \/ b = 5 \/ b = 6 \/ b = 7)
    as Hb' by lia.
  clear Ha Hb.
  repeat (destruct Ha' as [-> | Ha']); try subst a;
    repeat (destruct Hb' as [-> | Hb']); try subst b;
    destruct f; reflexivity.
Qed.

Lemma header_byte0_layout : forall n light_id forward,
  header_byte0 n light_id forward
  = (light_id / 256) mod 16 + 16 * (n mod 8) + (if forward then 128 else 0).
Proof.
  intros n light_id forward. unfold header_byte0, wrap8.
  change 15 with (Z.ones 4). change 7 with (Z.ones 3).
  rewrite !Z.land_ones by lia. change (2 ^ 4) with 16. change (2 ^ 3) with 8.
  rewrite (Z.mod_mod_divide _ 256 16) by (exists 16; reflexivity).
  pose proof (Z.mod_pos_bound (light_id / 256) 16 ltac:(lia)) as Ha.
  pose proof (Z.mod_pos_bound n 8 ltac:(lia)) as Hb.
  rewrite header_fields by assumption.
  apply Z.mod_small. destruct forward; lia.
Qed.

(** The body of a command, decrypted: the header as it was built, the
    checksum, and the data. *)
Lemma generate_command_body_plain :
  forall key mesh_key sequence n light_id data forward,
    all_u8 key -> all_u8 mesh_key -> is_u8 sequence -> all_u8 data ->
    let body := fst (generate_command_body key mesh_key sequence n light_id
                       data forward) in
    length body = (length data + 4)%nat
    /\ spec_decrypt key mesh_key body
       = header_byte0 n light_id forward :: sequence :: nth 3 mesh_key 0
         :: checksum_of (command_body mesh_key sequence n light_id data forward)
         :: data.
Proof.
  intros key mesh_key sequence n light_id data forward Hk Hm Hs Hd body.
  subst body. unfold generate_command_body. cbn [fst]. split.
  - unfold encrypt_body, command_body. rewrite length_mapi_from. simpl. lia.
  - rewrite decrypt_encrypt_body; try assumption.
    + reflexivity.
    + unfold command_body. simpl store.
      repeat apply Forall_cons; try assumption.
      * apply wrap8_is_u8.
      * apply nth_is_u8; assumption.
      * apply checksum_from_is_u8. unfold is_u8. lia.
Qed.

Lemma inner_length_byte : forall z,
  0 <= z <= 10 ->
  wrap8 (Z.lor 2 (Z.shiftl (Z.land 268435455 (z + 1)) 4)) = 16 * (z + 1) + 2.
Proof.
  intros z Hz.
  assert (z = 0 \/ z = 1 \/ z = 2 \/ z = 3 \/ z = 4 \/ z = 5 \/ z = 6
          \/ z = 7 \/ z = 8 \/ z = 9 \/ z = 10) as H by lia.
  clear Hz.
  repeat (destruct H as [-> | H]); try subst z; reflexivity.
Qed.

Lemma inner_payload_shape : forall light_id light_data,
  (length light_data <= 10)%nat ->
  all_u8 light_data ->
  exists rest,
    inner_payload light_id light_data
    = Some (16 * (Z.of_nat (length light_data) + 1) + 2
            :: light_id mod 256 :: light_data ++ rest)
    /\ length rest = (10 - length light_data)%nat
    /\ all_u8 rest.
Proof.
  intros light_id light_data Hlen Hu. unfold inner_payload.
  replace (10 <? Z.of_nat (length light_data)) with false
    by (symmetry; apply Z.ltb_ge; lia).
  exists (repeat 0 (10 - length light_data)). split; [| split].
  - rewrite inner_length_byte by lia. reflexivity.
  - apply repeat_length.
  - unfold all_u8. apply Forall_forall. intros x Hx.
    apply repeat_spec in Hx. subst x. unfold is_u8. lia.
Qed.

Section CodecReadBack.

Variable DEFAULT_ENCRYPT_KEY : bytes.
Variable DEFAULT_BLE_FASTCON_ADDRESS : bytes.
Variable prepare_payload : bytes -> bytes -> bytes.

(** X1.  Decoding undoes encoding: the body [generate_command] builds has
    [data.size() + 4] bytes, all of them byte values, and decrypting it
    gives back the data after the four header bytes. *)
Theorem generate_command_round_trip :
  forall mesh_key sequence n light_id data forward,
    all_u8 DEFAULT_ENCRYPT_KEY -> all_u8 mesh_key ->
    is_u8 sequence -> all_u8 data ->
    let body := fst (generate_command_body DEFAULT_ENCRYPT_KEY mesh_key
                       sequence n light_id data forward) in
    let plain := spec_decrypt DEFAULT_ENCRYPT_KEY mesh_key body in
    length body = (length data + 4)%nat
    /\ all_u8 body
    /\ skipn 4 plain = data.
Proof.
  intros mesh_key sequence n light_id data forward Hk Hm Hs Hd body plain.
  subst plain body.
  destruct (generate_command_body_plain DEFAULT_ENCRYPT_KEY mesh_key sequence
              n light_id data forward Hk Hm Hs Hd) as [Hl Hp].
  split; [exact Hl | split].
  - apply encrypt_body_is_u8.
  - rewrite Hp. reflexivity.
Qed.

(** X2.  The header read back: decrypted byte 0 holds bits 8..11 of the
    light id in its low nibble, the command type modulo 8 in bits 4..6 and
    the forward flag in bit 7; byte 1 is the sequence counter and byte 2
    the fourth byte of the mesh key. *)
Theorem generate_command_header_fields :
  forall mesh_key sequence n light_id data forward,
    all_u8 DEFAULT_ENCRYPT_KEY -> all_u8 mesh_key ->
    is_u8 sequence -> all_u8 data ->
    let body := fst (generate_command_body DEFAULT_ENCRYPT_KEY mesh_key
                       sequence n light_id data forward) in
    let plain := spec_decrypt DEFAULT_ENCRYPT_KEY mesh_key body in
    nth 0 plain 0
    = (light_id / 256) mod 16 + 16 * (n mod 8) + (if forward then 128 else 0)
    /\ nth 1 plain 0 = sequence
    /\ nth 2 plain 0 = nth 3 mesh_key 0.
Proof.
  intros mesh_key sequence n light_id data forward Hk Hm Hs Hd body plain.
  subst plain body.
  destruct (generate_command_body_plain DEFAULT_ENCRYPT_KEY mesh_key sequence
              n light_id data forward Hk Hm Hs Hd) as [_ Hp].
  rewrite Hp. cbn [nth]. rewrite header_byte0_layout. auto.
Qed.

(** X3.  A control frame read back: for light data of at most 10 bytes
    [single_control] gives a 16-byte body; decrypted, its low header nibble
    and the second payload byte give the light id modulo 4096, the first
    payload byte is [16 * (size + 1) + 2] and the light data follow. *)
Theorem single_control_read_back :
  forall mesh_key sequence light_id light_data,
    all_u8 DEFAULT_ENCRYPT_KEY -> all_u8 mesh_key ->
    is_u8 sequence -> all_u8 light_data ->
    (length light_data <= 10)%nat ->
    exists body,
      single_control DEFAULT_ENCRYPT_KEY DEFAULT_BLE_FASTCON_ADDRESS
        prepare_payload mesh_key sequence light_id light_data
      = Some (prepare_payload DEFAULT_BLE_FASTCON_ADDRESS body,
              next_sequence sequence)
      /\ length body = 16%nat
      /\ let plain := spec_decrypt DEFAULT_ENCRYPT_KEY mesh_key body in
         (nth 0 plain 0 mod 16) * 256 + nth 5 plain 0 = light_id mod 4096
         /\ nth 4 plain 0 = 16 * (Z.of_nat (length light_data) + 1) + 2
         /\ firstn (length light_data) (skipn 6 plain) = light_data.
Proof.
  intros mesh_key sequence light_id light_data Hk Hm Hs Hd Hlen.
  destruct (inner_payload_shape light_id light_data Hlen Hd)
    as (rest & Hinner & Hrest & Hurest).
  set (inner := 16 * (Z.of_nat (length light_data) + 1) + 2
                :: light_id mod 256 :: light_data ++ rest) in *.
  assert (all_u8 inner) as Hui.
  { subst inner. repeat apply Forall_cons.
    - unfold is_u8. lia.
    - apply Z.mod_pos_bound. lia.
    - apply Forall_app. split; assumption. }
  exists (fst (generate_command_body DEFAULT_ENCRYPT_KEY mesh_key sequence 5
                 light_id inner true)).
  destruct (generate_command_body_plain DEFAULT_ENCRYPT_KEY mesh_key sequence 5
              light_id inner true Hk Hm Hs Hui) as [Hl Hp].
  split; [| split].
  - unfold single_control. rewrite Hinner. reflexivity.
  - rewrite Hl. subst inner. simpl. rewrite length_app, Hrest. lia.
  - cbv zeta. rewrite Hp. subst inner. cbn [nth skipn].
    rewrite header_byte0_layout.
    split; [| split].
    + replace (((light_id / 256) mod 16 + 16 * (5 mod 8) + 128) mod 16)
        with ((light_id / 256) mod 16).
      * change 4096 with (256 * 16).
        rewrite (Z.rem_mul_r light_id 256 16) by lia. lia.
      * rewrite <- Z.add_assoc. change (16 * (5 mod 8) + 128) with (13 * 16).
        rewrite Z.mod_add by lia. rewrite Z.mod_mod by lia. reflexivity.
    + reflexivity.
    + rewrite firstn_app, firstn_all, Nat.sub_diag. simpl.
      apply app_nil_r.
Qed.

End CodecReadBack.

Lemma generate_command_round_trip_witness :
  let body := fst (generate_command_body example_encrypt_key example_mesh_key
                     7 5 1 [34; 1; 255] true) in
  let plain := spec_decrypt example_encrypt_key example_mesh_key body in
  length body = (length [34; 1; 255] + 4)%nat
  /\ all_u8 body
  /\ skipn 4 plain = [34; 1; 255].
Proof.
  apply (generate_command_round_trip example_encrypt_key example_mesh_key
           7 5 1 [34; 1; 255] true); solve_u8.
Defined.

Lemma generate_command_header_fields_witness :
  let body := fst (generate_command_body example_encrypt_key example_mesh_key
                     7 5 4097 [34; 1; 255] true) in
  let plain := spec_decrypt example_encrypt_key example_mesh_key body in
  nth 0 plain 0 = (4097 / 256) mod 16 + 16 * (5 mod 8) + 128
  /\ nth 1 plain 0 = 7
  /\ nth 2 plain 0 = nth 3 example_mesh_key 0.
Proof.
  apply (generate_command_header_fields example_encrypt_key example_mesh_key
           7 5 4097 [34; 1; 255] true); solve_u8.
Defined.

Lemma single_control_read_back_witness :
  exists body,
    single_control example_encrypt_key example_address example_prepare_payload
      example_mesh_key 7 4097 [191; 255; 0; 127; 0; 0]
    = Some (example_prepare_payload example_address body, next_sequence 7)
    /\ length body = 16%nat
    /\ let plain := spec_decrypt example_encrypt_key example_mesh_key body in
       (nth 0 plain 0 mod 16) * 256 + nth 5 plain 0 = 4097 mod 4096
       /\ nth 4 plain 0
          = 16 * (Z.of_nat (length [191; 255; 0; 127; 0; 0]) + 1) + 2
       /\ firstn (length [191; 255; 0; 127; 0; 0]) (skipn 6 plain)
          = [191; 255; 0; 127; 0; 0].
Proof.
  apply (single_control_read_back example_encrypt_key example_address
           example_prepare_payload example_mesh_key 7 4097
           [191; 255; 0; 127; 0; 0]); try solve_u8.
  simpl. lia.
Defined.

(** ** The light-state encoder *)

Lemma float_to_u8_range : forall x v, float_to_u8 x = Some v -> is_u8 v.
Proof.
  intros x v. unfold float_to_u8, is_u8. destruct x as [s | s | | s m e].
  - intro H. injection H as <-. lia.
  - discriminate.
  - discriminate.
  - cbv zeta.
    match goal with |- context [0 <=? ?t] => set (v0 := t) end.
    destruct ((0 <=? v0) && (v0 <? 256)) eqn:E; [| discriminate].
    intro H. injection H as <-.
    apply andb_true_iff in E. destruct E as [E1 E2].
    apply Z.leb_le in E1. apply Z.ltb_lt in E2. lia.
Qed.

Lemma store_length : forall (A : Type) i (x : A) v,
  length (store i x v) = length v.
Proof.
  intros A i x v. revert i.
  induction v as [| y v IH]; intros [| i]; simpl; try rewrite IH; reflexivity.
Qed.

Lemma store_all_u8 : forall i x v, is_u8 x -> all_u8 v -> all_u8 (store i x v).
Proof.
  intros i x v Hx Hv. revert i.
  induction Hv as [| y v Hy Hv IH]; intros [| i]; simpl.
  - constructor.
  - constructor.
  - constructor; assumption.
  - constructor; [assumption | apply IH].
Qed.

Lemma digits2_pos_bound : forall m, Z.pos m < 2 ^ Z.pos (digits2_pos m).
Proof.
  induction m as [m IH | m IH |]; simpl digits2_pos.
  - rewrite Pos2Z.inj_succ, Z.pow_succ_r, Pos2Z.inj_xI by lia. lia.
  - rewrite Pos2Z.inj_succ, Z.pow_succ_r, Pos2Z.inj_xO by lia. lia.
  - reflexivity.
Qed.

(** The mantissa of a binary32 value has at most 24 bits. *)
Lemma binary32_mantissa : forall s m e,
  is_binary32 (S754_finite s m e) -> Z.pos m < 2 ^ 24.
Proof.
  intros s m e H. unfold is_binary32, valid_binary, bounded in H.
  apply andb_true_iff in H. destruct H as [H _].
  unfold canonical_mantissa, fexp, emin in H. apply Z.eqb_eq in H.
  pose proof (digits2_pos_bound m) as Hd.
  assert (Z.pos (digits2_pos m) <= 24) as Hle by lia.
  eapply Z.lt_le_trans; [exact Hd |].
  apply Z.pow_le_mono_r; lia.
Qed.

Lemma float_to_u8_small : forall m e b,
  e < 0 ->
  Z.pos m / 2 ^ (- e) <= 127 ->
  float_to_u8 (S754_finite false m e) = Some b -> 0 <= b <= 127.
Proof.
  intros m e b He Hq. unfold float_to_u8.
  replace (0 <=? e) with false by (symmetry; apply Z.leb_gt; lia).
  cbv zeta iota.
  assert (0 <= Z.pos m / 2 ^ (- e)) as Hpos
    by (apply Z.div_pos; [lia | apply Z.pow_pos_nonneg; lia]).
  destruct ((0 <=? Z.pos m / 2 ^ (- e)) && (Z.pos m / 2 ^ (- e) <? 256));
    [| discriminate].
  intro H. injection H as <-. lia.
Qed.

Lemma fltb_finite : forall m1 e1 m2 e2,
  fltb (S754_finite false m1 e1) (S754_finite false m2 e2)
  = match Z.compare e1 e2 with
    | Lt => true
    | Gt => false
    | Eq => match Pos.compare m1 m2 with Lt => true | _ => false end
    end.
Proof.
  intros m1 e1 m2 e2. unfold fltb, SFltb, SFcompare.
  destruct (Z.compare e1 e2); reflexivity.
Qed.

Lemma float_to_u8_clamped : forall x b,
  is_binary32 x ->
  float_to_u8 (fmin x (f32 127)) = Some b -> 0 <= b <= 127.
Proof.
  intros x b Hv. unfold fmin.
  change (f32 127) with (S754_finite false 16646144 (-17)).
  destruct x as [s | s | | s m e].
  - intro H. vm_compute in H. injection H as <-. lia.
  - destruct s; intro H; vm_compute in H;
      [discriminate | injection H as <-; lia].
  - discriminate.
  - destruct s.
    + change (fltb (S754_finite false 16646144 (-17)) (S754_finite true m e))
        with false. cbv iota.
      unfold float_to_u8.
      set (mag := if 0 <=? e then Z.pos m * 2 ^ e else Z.pos m / 2 ^ (- e)).
      assert (0 <= mag) as Hmag.
      { subst mag. destruct (0 <=? e) eqn:E.
        - apply Z.leb_le in E. apply Z.mul_nonneg_nonneg; [lia |].
          apply Z.pow_nonneg. lia.
        - apply Z.div_pos; [lia |]. apply Z.pow_pos_nonneg; lia. }
      cbv zeta iota.
      destruct ((0 <=? - mag) && (- mag <? 256)) eqn:E; [| discriminate].
      intro H. injection H as <-.
      apply andb_true_iff in E. destruct E as [E1 _]. apply Z.leb_le in E1. lia.
    + pose proof (binary32_mantissa false m e Hv) as Hm.
      change (2 ^ 24) with 16777216 in Hm.
      rewrite fltb_finite.
      destruct (Z.compare (-17) e) eqn:Ec.
      * apply Z.compare_eq in Ec. subst e.
        destruct (Pos.compare 16646144 m) eqn:Em.
        -- apply float_to_u8_small; [lia |].
           apply Pos.compare_eq in Em. subst m. vm_compute. discriminate.
        -- intro H. vm_compute in H. injection H as <-. lia.
        -- apply Pos.compare_gt_iff in Em.
           apply float_to_u8_small; [lia |].
           change (2 ^ (- -17)) with 131072.
           apply Z.div_le_upper_bound; lia.
      * intro H. vm_compute in H. injection H as <-. lia.
      * apply Z.compare_gt_iff in Ec.
        apply float_to_u8_small; [lia |].
        assert (2 ^ 18 <= 2 ^ (- e)) as Hp by (apply Z.pow_le_mono_r; lia).
        change (2 ^ 18) with 262144 in Hp.
        apply Z.div_le_upper_bound; [lia | nia].
Qed.

Lemma nth_store_other : forall (A : Type) i j (x d : A) v,
  i <> j -> nth j (store i x v) d = nth j v d.
Proof.
  intros A i j x d v. revert i j.
  induction v as [| y v IH]; intros [| i] [| j] H; simpl; try reflexivity.
  - contradiction.
  - apply IH. intro E. apply H. rewrite E. reflexivity.
Qed.

Lemma nth_store_same : forall (A : Type) i (x d : A) v,
  (i < length v)%nat -> nth i (store i x v) d = x.
Proof.
  intros A i x d v. revert i.
  induction v as [| y v IH]; intros [| i] H; simpl in *; try lia.
  - reflexivity.
  - apply IH. lia.
Qed.

Lemma some_eq : forall (A : Type) (a b : A), Some a = Some b -> a = b.
Proof. intros A a b H. injection H as H. exact H. Qed.

Lemma light_data_rgb_keeps : forall values,
  block_keeps (light_data_rgb values) [0; 4; 5]%nat.
Proof.
  intros values ld ld'. unfold light_data_rgb.
  destruct (has_capability _ RGB).
  - destruct (float_to_u8 (fmul (get_blue values) _)) as [blue |] eqn:Eb;
      [| discriminate].
    destruct (float_to_u8 (fmul (get_red values) _)) as [red |] eqn:Er;
      [| discriminate].
    destruct (float_to_u8 (fmul (get_green values) _)) as [green |] eqn:Eg;
      [| discriminate].
    cbn [obind]. intro H. apply some_eq in H. subst ld'.
    apply float_to_u8_range in Eb, Er, Eg.
    split; [| split].
    + rewrite !store_length. reflexivity.
    + intro Hu. repeat apply store_all_u8; assumption.
    + intros j Hj. rewrite !nth_store_other; [reflexivity | | |];
        simpl in Hj; lia.
  - intro H. apply some_eq in H. subst ld'. auto.
Qed.

Lemma light_data_cold_warm_keeps : forall values,
  block_keeps (light_data_cold_warm values) [0; 1; 2; 3]%nat.
Proof.
  intros values ld ld'. unfold light_data_cold_warm.
  destruct (has_capability _ COLD_WARM_WHITE).
  - destruct (float_to_u8 (fmul (get_warm_white values) _)) as [warm |] eqn:Ew;
      [| discriminate].
    destruct (float_to_u8 (fmul (get_cold_white values) _)) as [cold |] eqn:Ec;
      [| discriminate].
    cbn [obind]. intro H. apply some_eq in H. subst ld'.
    apply float_to_u8_range in Ew, Ec.
    split; [| split].
    + rewrite !store_length. reflexivity.
    + intro Hu. repeat apply store_all_u8; assumption.
    + intros j Hj. rewrite !nth_store_other; [reflexivity | |];
        simpl in Hj; lia.
  - intro H. apply some_eq in H. subst ld'. auto.
Qed.

Lemma light_data_temperature_keeps : forall values,
  block_keeps (light_data_temperature values) [0; 1; 2; 3]%nat.
Proof.
  intros values ld ld'. unfold light_data_temperature.
  assert (forall a b, is_u8 a -> is_u8 b ->
            length (store 5 a (store 4 b ld)) = length ld
            /\ (all_u8 ld -> all_u8 (store 5 a (store 4 b ld)))
            /\ forall j, In j [0; 1; 2; 3]%nat ->
                 nth j (store 5 a (store 4 b ld)) 0 = nth j ld 0) as Hst.
  { intros a b Ha Hb. split; [| split].
    - rewrite !store_length. reflexivity.
    - intro Hu. repeat apply store_all_u8; assumption.
    - intros j Hj. rewrite !nth_store_other; [reflexivity | |];
        simpl in Hj; lia. }
  destruct (has_capability _ COLOR_TEMPERATURE).
  - destruct (fltb (get_color_temperature values) (f32 153)).
    + intro H. apply some_eq in H. subst ld'. apply Hst; unfold is_u8; lia.
    + destruct (fltb (f32 500) (get_color_temperature values)).
      * intro H. apply some_eq in H. subst ld'. apply Hst; unfold is_u8; lia.
      * destruct (float_to_u8 (fdiv (fadd (fmul (fsub (f32 500) _) _) _) _))
          as [warm |] eqn:Ew; [| discriminate].
        cbn [obind].
        destruct (float_to_u8 (fdiv (fadd (fmul (fsub _ (f32 153)) _) _) _))
          as [cold |] eqn:Ec; [| discriminate].
        cbn [obind]. intro H. apply some_eq in H. subst ld'.
        apply float_to_u8_range in Ew, Ec. apply Hst; assumption.
  - intro H. apply some_eq in H. subst ld'. auto.
Qed.

(** The three blocks in a row, as [get_light_data] runs them. *)
Lemma light_data_blocks : forall values ld l,
  obind (light_data_rgb values ld)
    (fun ld1 => obind (light_data_cold_warm values ld1)
                  (fun ld2 => light_data_temperature values ld2)) = Some l ->
  exists ld1 ld2,
    light_data_rgb values ld = Some ld1
    /\ light_data_cold_warm values ld1 = Some ld2
    /\ light_data_temperature values ld2 = Some l.
Proof.
  intros values ld l H.
  destruct (light_data_rgb values ld) as [ld1 |]; [| discriminate].
  cbn [obind] in H.
  destruct (light_data_cold_warm values ld1) as [ld2 |] eqn:E2;
    [| discriminate].
  cbn [obind] in H. exists ld1, ld2.
  split; [reflexivity | split; [exact E2 | exact H]].
Qed.

(** The result of [get_light_data]: bytes, one for a light that is off or
    in a white mode, six otherwise. *)
Lemma get_light_data_result : forall values l,
  get_light_data values = Some l ->
  all_u8 l
  /\ (is_on values = false -> l = [0])
  /\ (is_on values = true ->
      if has_capability (get_color_mode values) WHITE
      then length l = 1%nat else length l = 6%nat).
Proof.
  intros values l. unfold get_light_data.
  destruct (is_on values); simpl negb; cbv iota.
  - destruct (float_to_u8 _) as [b |] eqn:Eb; [| discriminate].
    cbn [obind]. apply float_to_u8_range in Eb.
    destruct (has_capability _ WHITE).
    + intro H. injection H as <-.
      split; [apply Forall_cons; [assumption | apply Forall_nil] |].
      split; [discriminate | reflexivity].
    + intro H. apply light_data_blocks in H.
      destruct H as (ld1 & ld2 & H1 & H2 & H3).
      apply light_data_rgb_keeps in H1. destruct H1 as (L1 & U1 & _).
      apply light_data_cold_warm_keeps in H2. destruct H2 as (L2 & U2 & _).
      apply light_data_temperature_keeps in H3. destruct H3 as (L3 & U3 & _).
      split; [| split].
      * apply U3, U2, U1. simpl store.
        apply Forall_cons; [apply wrap8_is_u8 |].
        unfold all_u8. repeat (apply Forall_cons || apply Forall_nil);
          unfold is_u8; lia.
      * discriminate.
      * intros _. rewrite L3, L2, L1. reflexivity.
  - intro H. injection H as <-.
    split; [apply Forall_cons; [unfold is_u8; lia | apply Forall_nil] |].
    split; [reflexivity | discriminate].
Qed.

(** X4.  Whatever the light state, a result of [get_light_data] is made
    of byte values; it is the single byte 0 when the light is off, one byte
    when it is on in a mode with the white capability, and six bytes in
    every other case. *)
Theorem get_light_data_shape : forall values l,
  get_light_data values = Some l ->
  all_u8 l
  /\ (is_on values = false -> l = [0])
  /\ (is_on values = true ->
      if has_capability (get_color_mode values) WHITE
      then length l = 1%nat else length l = 6%nat).
Proof. exact get_light_data_result. Qed.

Lemma get_light_data_shape_witness :
  all_u8 [191; 255; 0; 127; 0; 0]
  /\ (is_on example_rgb_values = false -> [191; 255; 0; 127; 0; 0] = [0])
  /\ (is_on example_rgb_values = true ->
      if has_capability (get_color_mode example_rgb_values) WHITE
      then length [191; 255; 0; 127; 0; 0] = 1%nat
      else length [191; 255; 0; 127; 0; 0] = 6%nat).
Proof.
  apply (get_light_data_shape example_rgb_values [191; 255; 0; 127; 0; 0]).
  vm_compute. reflexivity.
Defined.

(** X5.  The on bit.  For a light that is on, with the product
    [brightness * 127.0f] a binary32 value, the first byte of the result is
    at least 128 outside the white modes (the on bit and a brightness of at
    most 127, with no carry into it), and at most 127 in a white mode. *)
Theorem get_light_data_on_bit : forall values l,
  is_on values = true ->
  is_binary32 (fmul (get_brightness values) (f32 127)) ->
  get_light_data values = Some l ->
  if has_capability (get_color_mode values) WHITE
  then 0 <= nth 0 l 0 <= 127
  else 128 <= nth 0 l 0 <= 255.
Proof.
  intros values l Hon Hv. unfold get_light_data. rewrite Hon.
  simpl negb. cbv iota.
  destruct (float_to_u8 _) as [b |] eqn:Eb; [| discriminate].
  cbn [obind]. apply float_to_u8_clamped in Eb; [| exact Hv].
  destruct (has_capability _ WHITE).
  - intro H. injection H as <-. exact Eb.
  - intro H. apply light_data_blocks in H.
    destruct H as (ld1 & ld2 & H1 & H2 & H3).
    apply light_data_rgb_keeps in H1. destruct H1 as (_ & _ & K1).
    apply light_data_cold_warm_keeps in H2. destruct H2 as (_ & _ & K2).
    apply light_data_temperature_keeps in H3. destruct H3 as (_ & _ & K3).
    rewrite K3, K2, K1 by (simpl; auto).
    cbn [store nth]. unfold wrap8. rewrite Z.mod_small by lia. lia.
Qed.

Lemma get_light_data_blocks : forall values l,
  is_on values = true ->
  has_capability (get_color_mode values) WHITE = false ->
  get_light_data values = Some l ->
  exists b ld1 ld2,
    light_data_rgb values (wrap8 (128 + b) :: [0; 0; 0; 0; 0]) = Some ld1
    /\ light_data_cold_warm values ld1 = Some ld2
    /\ light_data_temperature values ld2 = Some l
    /\ length ld1 = 6%nat /\ length ld2 = 6%nat.
Proof.
  intros values l Hon Hw. unfold get_light_data. rewrite Hon, Hw.
  simpl negb. cbv iota.
  destruct (float_to_u8 _) as [b |]; [| discriminate].
  cbn [obind store]. intro H. apply light_data_blocks in H.
  destruct H as (ld1 & ld2 & H1 & H2 & H3).
  exists b, ld1, ld2.
  pose proof (light_data_rgb_keeps values _ _ H1) as (L1 & _).
  pose proof (light_data_cold_warm_keeps values _ _ H2) as (L2 & _).
  split; [exact H1 | split; [exact H2 | split; [exact H3 | split]]].
  - rewrite L1. reflexivity.
  - rewrite L2, L1. reflexivity.
Qed.

(** X6.  The colour temperature anchors.  For a light that is on outside
    the white modes, with the colour temperature capability, a temperature
    below 153 gives warm 255 and cold 0, one above 500 warm 0 and cold 255,
    whatever the cold and warm white channels hold. *)
Theorem get_light_data_temperature_anchors : forall values l,
  is_on values = true ->
  has_capability (get_color_mode values) WHITE = false ->
  has_capability (get_color_mode values) COLOR_TEMPERATURE = true ->
  get_light_data values = Some l ->
  (fltb (get_color_temperature values) (f32 153) = true ->
   nth 4 l 0 = 255 /\ nth 5 l 0 = 0)
  /\ (fltb (get_color_temperature values) (f32 153) = false ->
      fltb (f32 500) (get_color_temperature values) = true ->
      nth 4 l 0 = 0 /\ nth 5 l 0 = 255).
Proof.
  intros values l Hon Hw Ht H.
  destruct (get_light_data_blocks values l Hon Hw H)
    as (b & ld1 & ld2 & _ & _ & H3 & _ & L2).
  unfold light_data_temperature in H3. rewrite Ht in H3.
  assert (forall x y, nth 4 (store 5 x (store 4 y ld2)) 0 = y
                      /\ nth 5 (store 5 x (store 4 y ld2)) 0 = x) as Hst.
  { intros x y. split.
    - rewrite nth_store_other by lia. apply nth_store_same. lia.
    - apply nth_store_same. rewrite store_length. lia. }
  split.
  - intro Hlow. rewrite Hlow in H3. apply some_eq in H3. subst l. apply Hst.
  - intros Hlow Hhigh. rewrite Hlow, Hhigh in H3. apply some_eq in H3.
    subst l. apply Hst.
Qed.

(** X7.  The colour bytes.  For a light that is on outside the white
    modes, with the RGB capability, bytes 1, 2 and 3 of the result are blue,
    red and green, in this order, each the channel times 255 truncated. *)
Theorem get_light_data_colour_order : forall values l,
  is_on values = true ->
  has_capability (get_color_mode values) WHITE = false ->
  has_capability (get_color_mode values) RGB = true ->
  get_light_data values = Some l ->
  float_to_u8 (fmul (get_blue values) (f32 255)) = Some (nth 1 l 0)
  /\ float_to_u8 (fmul (get_red values) (f32 255)) = Some (nth 2 l 0)
  /\ float_to_u8 (fmul (get_green values) (f32 255)) = Some (nth 3 l 0).
Proof.
  intros values l Hon Hw Hrgb H.
  destruct (get_light_data_blocks values l Hon Hw H)
    as (b & ld1 & ld2 & H1 & H2 & H3 & _ & _).
  pose proof (light_data_cold_warm_keeps values _ _ H2) as (_ & _ & K2).
  pose proof (light_data_temperature_keeps values _ _ H3) as (_ & _ & K3).
  rewrite !K3, !K2 by (simpl; auto).
  unfold light_data_rgb in H1. rewrite Hrgb in H1.
  destruct (float_to_u8 (fmul (get_blue values) _)) as [blue |];
    [| discriminate].
  destruct (float_to_u8 (fmul (get_red values) _)) as [red |];
    [| discriminate].
  destruct (float_to_u8 (fmul (get_green values) _)) as [green |];
    [| discriminate].
  cbn [obind] in H1. apply some_eq in H1. subst ld1.
  repeat split; reflexivity.
Qed.

Section EncoderAndCodec.

Variable DEFAULT_ENCRYPT_KEY : bytes.
Variable DEFAULT_BLE_FASTCON_ADDRESS : bytes.
Variable prepare_payload : bytes -> bytes -> bytes.

(** X8.  The encoder and the codec compose: whatever [get_light_data]
    returns fits the 12-byte inner payload, so [single_control] always
    builds a frame from it and consumes one sequence number. *)
Theorem single_control_of_light_data :
  forall values l mesh_key sequence light_id,
    get_light_data values = Some l ->
    exists frame,
      single_control DEFAULT_ENCRYPT_KEY DEFAULT_BLE_FASTCON_ADDRESS
        prepare_payload mesh_key sequence light_id l
      = Some (frame, next_sequence sequence).
Proof.
  intros values l mesh_key sequence light_id H.
  destruct (get_light_data_result values l H) as (_ & Hoff & Hon).
  assert (length l <= 10)%nat as Hlen.
  { destruct (is_on values).
    - specialize (Hon eq_refl).
      destruct (has_capability _ WHITE); rewrite Hon; lia.
    - rewrite (Hoff eq_refl). simpl. lia. }
  unfold single_control, inner_payload.
  replace (10 <? Z.of_nat (length l)) with false
    by (symmetry; apply Z.ltb_ge; lia).
  eexists. reflexivity.
Qed.

End EncoderAndCodec.

Lemma get_light_data_on_bit_witness :
  if has_capability (get_color_mode example_rgb_values) WHITE
  then 0 <= nth 0 [191; 255; 0; 127; 0; 0] 0 <= 127
  else 128 <= nth 0 [191; 255; 0; 127; 0; 0] 0 <= 255.
Proof.
  apply (get_light_data_on_bit example_rgb_values [191; 255; 0; 127; 0; 0]);
    vm_compute; reflexivity.
Defined.

Lemma get_light_data_temperature_anchors_witness :
  nth 4 [191; 0; 0; 0; 255; 0] 0 = 255 /\ nth 5 [191; 0; 0; 0; 255; 0] 0 = 0.
Proof.
  apply (get_light_data_temperature_anchors example_warm_values
           [191; 0; 0; 0; 255; 0]); vm_compute; reflexivity.
Defined.

Lemma get_light_data_colour_order_witness :
  float_to_u8 (fmul (get_blue example_rgb_values) (f32 255))
  = Some (nth 1 [191; 255; 0; 127; 0; 0] 0)
  /\ float_to_u8 (fmul (get_red example_rgb_values) (f32 255))
     = Some (nth 2 [191; 255; 0; 127; 0; 0] 0)
  /\ float_to_u8 (fmul (get_green example_rgb_values) (f32 255))
     = Some (nth 3 [191; 255; 0; 127; 0; 0] 0).
Proof.
  apply (get_light_data_colour_order example_rgb_values
           [191; 255; 0; 127; 0; 0]); vm_compute; reflexivity.
Defined.

Lemma single_control_of_light_data_witness :
  exists frame,
    single_control example_encrypt_key example_address example_prepare_payload
      example_mesh_key 7 1 [191; 255; 0; 127; 0; 0]
    = Some (frame, next_sequence 7).
Proof.
  apply (single_control_of_light_data example_encrypt_key example_address
           example_prepare_payload example_rgb_values
           [191; 255; 0; 127; 0; 0] example_mesh_key 7 1).
  vm_compute. reflexivity.
Defined.

(** ** The scheduler and the queue at work *)

(** What the scheduler hands to the radio for a command that fits the
    buffer: at most 31 bytes, with their number as the length. *)
Lemma adv_data_raw_fits : forall data,
  fits_adv_data_raw data ->
  (length (adv_data_raw data) <= 31)%nat
  /\ adv_data_len data = Z.of_nat (length (adv_data_raw data))
  /\ adv_data_len data = 7 + Z.of_nat (length data).
Proof.
  intros data H. unfold fits_adv_data_raw in H.
  unfold adv_data_raw, adv_data_len, wrap8. rewrite length_app. cbn [length].
  rewrite Z.mod_small by lia. repeat split; lia.
Qed.

(** X9.  One full cycle, for a command that fits the advertisement buffer
    (at most 24 bytes).  From [IDLE] with the command at the head of the
    queue and the radio accepting it, a tick starts advertising it, in a
    buffer of 7 bytes of header and the command, within the 31 bytes of
    [adv_data_raw]; the first tick at least [adv_duration_] later stops the
    radio and enters the gap; the first tick at least [adv_gap_] after that
    is back in [IDLE], with one command less in the queue and nothing else
    sent. *)
Theorem scheduler_cycle :
  forall radio c cmd rest t0 t1 t2,
    adv_state_ c = IDLE ->
    queue_ c = cmd :: rest ->
    fits_adv_data_raw (cmd_data cmd) ->
    config_adv_data_raw radio (adv_data_raw (cmd_data cmd))
      (adv_data_len (cmd_data cmd)) = ESP_OK ->
    start_advertising radio (adv_interval_min_ c) (adv_interval_max_ c)
      = ESP_OK ->
    adv_duration_ c <= wrap32 (t1 - t0) ->
    adv_gap_ c <= wrap32 (t2 - t1) ->
    let r0 := loop_scheduler radio t0 c in
    let r1 := loop_scheduler radio t1 (fst r0) in
    let r2 := loop_scheduler radio t2 (fst r1) in
    (adv_state_ (fst r0) = ADVERTISING
     /\ snd r0 = [ConfigAdvDataRaw (adv_data_raw (cmd_data cmd))
                    (adv_data_len (cmd_data cmd));
                  StartAdvertising (adv_interval_min_ c) (adv_interval_max_ c)]
     /\ (length (adv_data_raw (cmd_data cmd)) <= 31)%nat
     /\ adv_data_len (cmd_data cmd) = 7 + Z.of_nat (length (cmd_data cmd)))
    /\ (adv_state_ (fst r1) = GAP /\ snd r1 = [StopAdvertising])
    /\ (adv_state_ (fst r2) = IDLE /\ snd r2 = [])
    /\ queue_ (fst r2) = rest.
Proof.
  intros radio c cmd rest t0 t1 t2 Hs Hq Hfit Hc Hst Hd Hg r0 r1 r2.
  destruct (adv_data_raw_fits (cmd_data cmd) Hfit) as (Hb & _ & Hl).
  assert (r0 = (set_state_start_time t0 (set_adv_state ADVERTISING
                                           (set_queue rest c)),
                [ConfigAdvDataRaw (adv_data_raw (cmd_data cmd))
                   (adv_data_len (cmd_data cmd));
                 StartAdvertising (adv_interval_min_ c) (adv_interval_max_ c)]))
    as E0.
  { subst r0. unfold loop_scheduler. rewrite Hs, Hq. cbv zeta.
    rewrite Hc. cbn [negb Z.eqb ESP_OK]. simpl adv_interval_min_.
    simpl adv_interval_max_. rewrite Hst. reflexivity. }
  assert (r1 = (set_state_start_time t1 (set_adv_state GAP (fst r0)),
                [StopAdvertising])) as E1.
  { subst r1. rewrite E0. unfold loop_scheduler. cbn [fst adv_state_ set_state_start_time set_adv_state set_queue state_start_time_ adv_duration_].
    apply Z.leb_le in Hd. rewrite Hd. reflexivity. }
  assert (r2 = (set_adv_state IDLE (fst r1), [])) as E2.
  { subst r2. rewrite E1. unfold loop_scheduler. cbn [fst adv_state_ set_state_start_time set_adv_state set_queue state_start_time_ adv_gap_].
    rewrite E0. cbn [fst adv_state_ set_state_start_time set_adv_state set_queue state_start_time_ adv_gap_].
    apply Z.leb_le in Hg. rewrite Hg. reflexivity. }
  rewrite E2, E1, E0. cbn [fst snd adv_state_ queue_ set_state_start_time set_adv_state set_queue].
  auto 10.
Qed.

(** X10.  While the scheduler waits (idle with an empty queue, or before
    the end of the advertising duration or of the gap) any number of ticks
    leave the controller as it is and call nothing on the radio. *)
Theorem scheduler_waits : forall radio ticks c,
  Forall (fun now => waiting now c) ticks ->
  run_ops (map (OpLoop radio) ticks) c = (c, []).
Proof.
  intros radio ticks c H. induction H as [| now ticks Hnow Hrest IH]; simpl.
  - reflexivity.
  - assert (loop_scheduler radio now c = (c, [])) as E.
    { unfold waiting in Hnow. unfold loop_scheduler.
      destruct (adv_state_ c).
      - rewrite Hnow. reflexivity.
      - apply Z.leb_gt in Hnow. rewrite Hnow. reflexivity.
      - apply Z.leb_gt in Hnow. rewrite Hnow. reflexivity. }
    rewrite E, IH. reflexivity.
Qed.

Lemma attempted_app : forall ev1 ev2,
  attempted (ev1 ++ ev2) = attempted ev1 ++ attempted ev2.
Proof.
  induction ev1 as [| e ev1 IH]; intro ev2; simpl; [reflexivity |].
  destruct e; rewrite ?IH; reflexivity.
Qed.

Lemma apply_op_fifo : forall op c,
  op <> OpClearQueue ->
  attempted (snd (apply_op op c)) ++ map cmd_data (queue_ (fst (apply_op op c)))
  = map cmd_data (queue_ c) ++ accepted [op] c.
Proof.
  intros [now light_id data | radio now |] c Hop; [| | contradiction].
  - simpl. unfold queueCommand.
    destruct (max_queue_size_ c <=? queue_size c); simpl.
    + rewrite app_nil_r. reflexivity.
    + rewrite map_app. reflexivity.
  - cbn [apply_op accepted]. rewrite !app_nil_r. unfold loop_scheduler.
    destruct (adv_state_ c).
    + destruct (queue_ c) as [| cmd rest] eqn:Q; [simpl; rewrite Q; reflexivity |].
      cbv zeta.
      destruct (negb _); [reflexivity |].
      destruct (negb _); reflexivity.
    + destruct (_ <=? _); reflexivity.
    + destruct (_ <=? _); reflexivity.
Qed.

Lemma within_buffer_app : forall ev1 ev2,
  within_buffer ev1 -> within_buffer ev2 -> within_buffer (ev1 ++ ev2).
Proof.
  intros ev1 ev2 H1 H2 raw len Hin. apply in_app_or in Hin.
  destruct Hin; [apply H1 | apply H2]; assumption.
Qed.

Lemma apply_op_fits : forall op c,
  queue_fits c -> op_fits op ->
  queue_fits (fst (apply_op op c)) /\ within_buffer (snd (apply_op op c)).
Proof.
  intros [now light_id data | radio now |] c Hq Hop.
  - simpl. unfold queueCommand.
    destruct (max_queue_size_ c <=? queue_size c); cbn [fst snd].
    + split; [exact Hq |]. intros raw len [H | []]. discriminate.
    + split.
      * unfold queue_fits. cbn [queue_ set_queue].
        apply Forall_app. split; [exact Hq |].
        apply Forall_cons; [exact Hop | apply Forall_nil].
      * intros raw len [].
  - cbn [apply_op]. unfold loop_scheduler.
    assert (within_buffer []) as Hnil by (intros raw len []).
    assert (forall s, queue_fits (set_adv_state s c)) as Hs by (intro; exact Hq).
    assert (forall t s, queue_fits (set_state_start_time t (set_adv_state s c)))
      as Hst by (intros; exact Hq).
    destruct (adv_state_ c).
    + unfold queue_fits in Hq.
      destruct (queue_ c) as [| cmd rest] eqn:Q.
      * cbn [fst snd].
        split; [unfold queue_fits; rewrite Q; exact Hq | exact Hnil].
      * inversion Hq as [| cmd' rest' Hcmd Hrest]; subst.
        destruct (adv_data_raw_fits (cmd_data cmd) Hcmd) as (Hb & Hl & _).
        assert (forall ev,
                  (forall raw len, In (ConfigAdvDataRaw raw len) ev -> False) ->
                  within_buffer
                    (ConfigAdvDataRaw (adv_data_raw (cmd_data cmd))
                       (adv_data_len (cmd_data cmd)) :: ev)) as Hev.
        { intros ev Hno raw len [H | H].
          - injection H as <- <-. split; assumption.
          - destruct (Hno raw len H). }
        cbv zeta.
        destruct (negb _); [| destruct (negb _)]; cbn [fst snd];
          (split; [exact Hrest | apply Hev]);
          intros raw len Hin; simpl in Hin;
          repeat (destruct Hin as [Hin | Hin]; [discriminate |]);
          exact Hin.
    + destruct (_ <=? _); cbn [fst snd]; split;
        try exact Hq; try exact Hnil.
      intros raw len [H | []]. discriminate.
    + destruct (_ <=? _); cbn [fst snd]; split;
        try exact Hq; exact Hnil.
  - split; [apply Forall_nil | intros raw len []].
Qed.

(** X11.  First in, first out, nothing lost or made up, for commands that
    fit the advertisement buffer: over any series of [queueCommand] and
    [loop] calls without [clear_queue], with at most 24 bytes in every
    command queued at the start or by a call, whatever the radio answers,
    the commands handed to the radio followed by those still queued are the
    commands queued at the start followed by those [queueCommand] accepted,
    in the order of the calls; and every advertisement handed to the radio
    lies within the 31 bytes of [adv_data_raw]. *)
Theorem scheduler_fifo : forall ops c,
  never_cleared ops ->
  queue_fits c ->
  Forall op_fits ops ->
  attempted (snd (run_ops ops c)) ++ map cmd_data (queue_ (fst (run_ops ops c)))
  = map cmd_data (queue_ c) ++ accepted ops c
  /\ within_buffer (snd (run_ops ops c)).
Proof.
  induction ops as [| op rest IH]; intros c H Hq Hf.
  - simpl. rewrite app_nil_r. split; [reflexivity | intros raw len []].
  - inversion H as [| op' rest' Hop Hrest]; subst.
    inversion Hf as [| op' rest' Hfop Hfrest]; subst.
    pose proof (apply_op_fifo op c Hop) as Hstep.
    destruct (apply_op_fits op c Hq Hfop) as [Hq1 Hw1].
    cbn [run_ops accepted].
    destruct (apply_op op c) as [c1 ev1] eqn:E. cbn [fst snd] in *.
    destruct (IH c1 Hrest Hq1 Hfrest) as [IHf IHw].
    destruct (run_ops rest c1) as [c2 ev2]. cbn [fst snd] in *.
    split.
    + rewrite attempted_app, <- app_assoc, IHf, app_assoc, Hstep.
      cbn [accepted]. rewrite app_nil_r, <- app_assoc. reflexivity.
    + apply within_buffer_app; assumption.
Qed.

Lemma wrap32_elapsed : forall s d,
  0 <= d < 4294967296 -> wrap32 (wrap32 (s + d) - s) = d.
Proof.
  intros s d Hd. unfold wrap32.
  rewrite Zminus_mod_idemp_l.
  replace (s + d - s) with d by lia. apply Z.mod_small. exact Hd.
Qed.

(** X12.  The scheduler's timing survives the roll-over of [millis()]:
    [d] milliseconds after the state was entered, also when the 32-bit
    clock wrapped in between, the advertising state ends exactly when
    [adv_duration_ <= d] and the gap exactly when [adv_gap_ <= d]. *)
Theorem scheduler_millis_rollover : forall radio c d,
  0 <= d < 4294967296 ->
  let now := wrap32 (state_start_time_ c + d) in
  (adv_state_ c = ADVERTISING ->
   if adv_duration_ c <=? d
   then loop_scheduler radio now c
        = (set_state_start_time now (set_adv_state GAP c), [StopAdvertising])
   else loop_scheduler radio now c = (c, []))
  /\ (adv_state_ c = GAP ->
      if adv_gap_ c <=? d
      then loop_scheduler radio now c = (set_adv_state IDLE c, [])
      else loop_scheduler radio now c = (c, [])).
Proof.
  intros radio c d Hd now. subst now.
  split; intro Hs; unfold loop_scheduler; rewrite Hs, wrap32_elapsed by exact Hd.
  - destruct (adv_duration_ c <=? d); reflexivity.
  - destruct (adv_gap_ c <=? d); reflexivity.
Qed.

Lemma scheduler_cycle_witness :
  let cmd := mkCommand [1; 2; 3] 0 0 in
  let c := set_queue [cmd; mkCommand [4] 0 0] initial_controller in
  let r0 := loop_scheduler radio_ok 1000 c in
  let r1 := loop_scheduler radio_ok 1050 (fst r0) in
  let r2 := loop_scheduler radio_ok 1060 (fst r1) in
  (adv_state_ (fst r0) = ADVERTISING
   /\ snd r0 = [ConfigAdvDataRaw (adv_data_raw (cmd_data cmd))
                  (adv_data_len (cmd_data cmd));
                StartAdvertising (adv_interval_min_ c) (adv_interval_max_ c)]
   /\ (length (adv_data_raw (cmd_data cmd)) <= 31)%nat
   /\ adv_data_len (cmd_data cmd) = 7 + Z.of_nat (length (cmd_data cmd)))
  /\ (adv_state_ (fst r1) = GAP /\ snd r1 = [StopAdvertising])
  /\ (adv_state_ (fst r2) = IDLE /\ snd r2 = [])
  /\ queue_ (fst r2) = [mkCommand [4] 0 0].
Proof.
  intros cmd c.
  apply (scheduler_cycle radio_ok c cmd [mkCommand [4] 0 0] 1000 1050 1060);
    try reflexivity;
    try (unfold fits_adv_data_raw; simpl; lia);
    vm_compute; discriminate.
Defined.

Lemma scheduler_waits_witness :
  let c := set_state_start_time 1000
             (set_adv_state ADVERTISING initial_controller) in
  run_ops (map (OpLoop radio_ok) [1001; 1020; 1049]) c = (c, []).
Proof.
  intro c. apply (scheduler_waits radio_ok [1001; 1020; 1049] c).
  repeat constructor.
Defined.

Lemma scheduler_fifo_witness :
  let ops := [OpQueueCommand 0 1 [10]; OpQueueCommand 1 2 [20];
              OpLoop radio_ok 5; OpQueueCommand 6 3 [30];
              OpLoop radio_ok 60; OpLoop radio_ok 70; OpLoop radio_ok 75] in
  let c := initial_controller in
  attempted (snd (run_ops ops c)) ++ map cmd_data (queue_ (fst (run_ops ops c)))
  = map cmd_data (queue_ c) ++ accepted ops c
  /\ within_buffer (snd (run_ops ops c)).
Proof.
  intros ops c. apply (scheduler_fifo ops c).
  - unfold never_cleared. repeat constructor; discriminate.
  - apply Forall_nil.
  - repeat apply Forall_cons; try apply Forall_nil;
      try exact I; unfold op_fits, fits_adv_data_raw; simpl; lia.
Defined.

Lemma scheduler_millis_rollover_witness :
  let c := set_state_start_time 4294967290
             (set_adv_state ADVERTISING initial_controller) in
  wrap32 (state_start_time_ c + 50) = 44
  /\ loop_scheduler radio_ok 44 c
     = (set_state_start_time 44 (set_adv_state GAP c), [StopAdvertising]).
Proof.
  intro c. split; [reflexivity |].
  destruct (scheduler_millis_rollover radio_ok c 50) as [Hadv _]; [lia |].
  exact (Hadv eq_refl).
Defined.

(** X13.  Overflow loses the newest.  After any series of [queueCommand]
    calls the queue holds what it held before followed by the first of the
    new commands, as many as there was room for; the later ones are the
    ones dropped. *)
Theorem queueCommand_overflow_keeps_oldest : forall cmds c,
  let c' := fst (run_ops (queue_all cmds) c) in
  map cmd_data (queue_ c')
  = map cmd_data (queue_ c)
    ++ firstn (Z.to_nat (max_queue_size_ c - queue_size c)) (map snd cmds).
Proof.
  induction cmds as [| [[now light_id] data] cmds IH]; intros c c'; subst c'.
  - simpl. rewrite firstn_nil, app_nil_r. reflexivity.
  - cbn [queue_all map run_ops apply_op fst snd].
    fold (queue_all cmds).
    unfold queueCommand at 1.
    destruct (max_queue_size_ c <=? queue_size c) eqn:E.
    + apply Z.leb_le in E. specialize (IH c). cbv zeta in IH.
      destruct (run_ops (queue_all cmds) c) as [c2 ev2]. cbn [fst] in *.
      rewrite IH.
      replace (Z.to_nat (max_queue_size_ c - queue_size c)) with 0%nat by lia.
      reflexivity.
    + apply Z.leb_gt in E.
      specialize (IH (set_queue (queue_ c ++ [mkCommand data now 0]) c)).
      cbv zeta in IH.
      destruct (run_ops (queue_all cmds) _) as [c2 ev2]. cbn [fst] in *.
      rewrite IH. cbn [max_queue_size_ set_queue queue_].
      rewrite queue_size_set_queue, length_app, map_app. cbn [length map cmd_data].
      unfold queue_size in *.
      replace (Z.to_nat (max_queue_size_ c - Z.of_nat (length (queue_ c))))
        with (S (Z.to_nat (max_queue_size_ c
                           - Z.of_nat (length (queue_ c) + 1)))) by lia.
      cbn [firstn]. rewrite <- app_assoc. reflexivity.
Qed.

Section QueueingCommands.

Variable DEFAULT_ENCRYPT_KEY : bytes.
Variable DEFAULT_BLE_FASTCON_ADDRESS : bytes.
Variable prepare_payload : bytes -> bytes -> bytes.

(** X14.  A command dropped at a full queue still uses up a sequence
    number: [send_raw_command], [factory_reset_device] and the [pair_device]
    of fastcon_controller.cpp leave the controller as it was and log the
    warning, but the static [sequence] has moved on. *)
Theorem commands_at_full_queue :
  forall now sequence light_id group_id data c,
    max_queue_size_ c <= queue_size c ->
    send_raw_command DEFAULT_ENCRYPT_KEY DEFAULT_BLE_FASTCON_ADDRESS
      prepare_payload now sequence light_id data c
    = (c, next_sequence sequence, [WarnQueueFull (queue_size c) light_id])
    /\ factory_reset_device DEFAULT_ENCRYPT_KEY DEFAULT_BLE_FASTCON_ADDRESS
         prepare_payload now sequence light_id c
       = (c, next_sequence sequence, [WarnQueueFull (queue_size c) light_id])
    /\ mesh_pair_device DEFAULT_ENCRYPT_KEY DEFAULT_BLE_FASTCON_ADDRESS
         prepare_payload now sequence light_id group_id c
       = (c, next_sequence sequence, [WarnQueueFull (queue_size c) 65535]).
Proof.
  intros now sequence light_id group_id data c H.
  apply Z.leb_le in H.
  unfold send_raw_command, factory_reset_device, mesh_pair_device,
    generate_command, generate_command_body, queueCommand.
  rewrite H. repeat split.
Qed.

(** X15.  The pairing command of fastcon_controller.cpp read back: a
    16-byte body whose decrypted header byte 0 is 0xAF (forward, type 2,
    nibble 0xF of the broadcast address) and whose payload is six zero
    bytes, the low byte of the new light id, the constant 1 and the mesh
    key; the group id plays no part. *)
Theorem mesh_pair_device_frame :
  forall now sequence new_light_id group_id c,
    all_u8 DEFAULT_ENCRYPT_KEY -> all_u8 (mesh_key_ c) ->
    length (mesh_key_ c) = 4%nat -> is_u8 sequence ->
    exists body,
      mesh_pair_device DEFAULT_ENCRYPT_KEY DEFAULT_BLE_FASTCON_ADDRESS
        prepare_payload now sequence new_light_id group_id c
      = (fst (queueCommand now 65535
                (prepare_payload DEFAULT_BLE_FASTCON_ADDRESS body) c),
         next_sequence sequence,
         snd (queueCommand now 65535
                (prepare_payload DEFAULT_BLE_FASTCON_ADDRESS body) c))
      /\ length body = 16%nat
      /\ let plain := spec_decrypt DEFAULT_ENCRYPT_KEY (mesh_key_ c) body in
         nth 0 plain 0 = 175
         /\ skipn 4 plain
            = [0; 0; 0; 0; 0; 0; new_light_id mod 256; 1] ++ mesh_key_ c.
Proof.
  intros now sequence new_light_id group_id c Hk Hm Hlen Hs.
  set (data := pairing_data (mesh_key_ c) new_light_id).
  assert (data = [0; 0; 0; 0; 0; 0; new_light_id mod 256; 1] ++ mesh_key_ c)
    as Hdata.
  { subst data. unfold pairing_data.
    destruct (mesh_key_ c) as [| k0 [| k1 [| k2 [| k3 [| k4 rest]]]]];
      try discriminate.
    cbn [repeat app nth]. unfold wrap8. change 255 with (Z.ones 8).
    rewrite Z.land_ones by lia. change (2 ^ 8) with 256.
    rewrite Z.mod_mod by lia. reflexivity. }
  assert (all_u8 data) as Hud.
  { rewrite Hdata. apply Forall_app. split; [| exact Hm].
    unfold all_u8. repeat (apply Forall_cons || apply Forall_nil);
      try (unfold is_u8; lia).
    apply Z.mod_pos_bound. lia. }
  exists (fst (generate_command_body DEFAULT_ENCRYPT_KEY (mesh_key_ c)
                 sequence 2 65535 data true)).
  destruct (generate_command_body_plain DEFAULT_ENCRYPT_KEY (mesh_key_ c)
              sequence 2 65535 data true Hk Hm Hs Hud) as (Hl & Hp).
  split; [| split; [| split]].
  - unfold mesh_pair_device. fold data. unfold generate_command.
    destruct (generate_command_body _ _ _ _ _ _ _) as [body s'] eqn:E.
    cbn [fst].
    assert (s' = next_sequence sequence) as ->
      by (unfold generate_command_body in E; injection E as _ <-; reflexivity).
    destruct (queueCommand _ _ _ _). reflexivity.
  - rewrite Hl, Hdata, length_app, Hlen. reflexivity.
  - rewrite Hp. cbn [nth]. rewrite header_byte0_layout. reflexivity.
  - rewrite Hp. cbn [skipn]. exact Hdata.
Qed.

End QueueingCommands.

Lemma commands_at_full_queue_witness :
  let c := mkController [mkCommand [1] 0 0] 1 IDLE 0 example_mesh_key
             32 64 50 10 in
  send_raw_command example_encrypt_key example_address example_prepare_payload
    5 7 1 [9] c
  = (c, next_sequence 7, [WarnQueueFull (queue_size c) 1])
  /\ factory_reset_device example_encrypt_key example_address
       example_prepare_payload 5 7 1 c
     = (c, next_sequence 7, [WarnQueueFull (queue_size c) 1])
  /\ mesh_pair_device example_encrypt_key example_address
       example_prepare_payload 5 7 1 1 c
     = (c, next_sequence 7, [WarnQueueFull (queue_size c) 65535]).
Proof.
  intro c.
  apply (commands_at_full_queue example_encrypt_key example_address
           example_prepare_payload 5 7 1 1 [9] c).
  vm_compute. discriminate.
Defined.

Lemma mesh_pair_device_frame_witness :
  let c := fst example_pairing_state in
  exists body,
    mesh_pair_device example_encrypt_key example_address
      example_prepare_payload 5 7 3 1 c
    = (fst (queueCommand 5 65535
              (example_prepare_payload example_address body) c),
       next_sequence 7,
       snd (queueCommand 5 65535
              (example_prepare_payload example_address body) c))
    /\ length body = 16%nat
    /\ let plain := spec_decrypt example_encrypt_key (mesh_key_ c) body in
       nth 0 plain 0 = 175
       /\ skipn 4 plain = [0; 0; 0; 0; 0; 0; 3 mod 256; 1] ++ mesh_key_ c.
Proof.
  intro c.
  apply (mesh_pair_device_frame example_encrypt_key example_address
           example_prepare_payload 5 7 3 1 c); try solve_u8.
  reflexivity.
Defined.

(** ** The pairing mode at work *)

Lemma phase_advertisement_shape : forall c p,
  let adv := phase_advertisement c p in
  let raw := pairing_adv_data_raw adv in
  length adv = 32%nat
  /\ pairing_copy_len adv = 25
  /\ length raw = 25%nat
  /\ firstn 7 raw = [2; 1; 26; 19; 255; 240; 255]
  /\ nth 7 raw 0 = match pairing_phase_ p with
                   | DISCOVERY => 78
                   | PAIRING => 110
                   end.
Proof.
  intros c p. unfold phase_advertisement.
  destruct (pairing_phase_ p).
  - unfold build_discovery_advertisement, pairing_adv_data_raw,
      pairing_copy_len, adv_prefix.
    cbn [fst app length].
    change (Z.to_nat (Z.min (Z.of_nat 32 - 6) 25)) with 25%nat.
    cbn [firstn skipn nth length]. repeat split.
  - unfold build_pairing_advertisement, pairing_adv_data_raw,
      pairing_copy_len, adv_prefix.
    cbn [fst app length].
    change (Z.to_nat (Z.min (Z.of_nat 32 - 6) 25)) with 25%nat.
    cbn [firstn skipn nth length]. repeat split.
Qed.

Lemma pairing_advertise_event : forall radio now c p raw,
  configured_raw (snd (pairing_advertise radio now (c, p))) = Some raw ->
  raw = pairing_adv_data_raw (phase_advertisement c p)
  /\ In (ConfigAdvDataRaw raw (pairing_copy_len (phase_advertisement c p)))
       (snd (pairing_advertise radio now (c, p))).
Proof.
  intros radio now c p raw. unfold pairing_advertise, phase_advertisement.
  destruct (pairing_phase_ p).
  - destruct (build_discovery_advertisement _) as [adv n]. cbn [fst].
    destruct (adv_state_ c); [| destruct (100 <=? _) |];
      try (simpl; discriminate);
      (destruct (negb _); [| destruct (negb _)]); simpl;
      intro H; injection H as <-; auto.
  - destruct (build_pairing_advertisement _ _ _) as [adv n]. cbn [fst].
    destruct (adv_state_ c); [| destruct (100 <=? _) |];
      try (simpl; discriminate);
      (destruct (negb _); [| destruct (negb _)]); simpl;
      intro H; injection H as <-; auto.
Qed.

(** X16.  Pairing mode owns the radio and leaves the queue alone: a tick
    in pairing mode, timed out or not, never takes a command from the
    queue, and whatever it hands to the radio is 25 bytes long, one byte
    short of the advertisement without its MAC. *)
Theorem pairing_parks_queue : forall radio now c p,
  pairing_mode_ p = true ->
  queue_ (fst (fst (loop radio now (c, p)))) = queue_ c
  /\ forall raw len,
       In (ConfigAdvDataRaw raw len) (snd (loop radio now (c, p))) ->
       len = 25 /\ length raw = 25%nat.
Proof.
  intros radio now c p Hmode.
  unfold loop. cbn [fst snd]. rewrite Hmode.
  set (elapsed := wrap32 (now - pairing_start_time_ p)).
  pose proof (pairing_phase_transition_frame now elapsed (c, p)) as [F1 S1].
  destruct (pairing_phase_transition now elapsed (c, p)) as [s1 ev1].
  pose proof (pairing_auto_increment_frame now s1) as [F2 S2].
  destruct (pairing_auto_increment now s1) as [[c2 p2] ev2].
  cbn [fst snd] in F1, S1, F2, S2.
  destruct (session_frame_trans _ _ _ F1 F2) as (Hq & _).
  cbn [fst snd] in Hq.
  assert (forall raw len, In (ConfigAdvDataRaw raw len) (ev1 ++ ev2) -> False)
    as Hstops.
  { intros raw len Hin.
    pose proof (only_stops_app _ _ S1 S2) as S.
    unfold only_stops in S. rewrite Forall_forall in S.
    specialize (S _ Hin). discriminate. }
  destruct (60000 <=? elapsed).
  - cbn [fst snd]. split; [exact Hq |].
    intros raw len Hin. rewrite app_assoc in Hin.
    apply in_app_or in Hin. destruct Hin as [Hin | Hin].
    + destruct (Hstops _ _ Hin).
    + simpl in Hin. destruct Hin as [Hin | [Hin | []]]; discriminate.
  - pose proof (pairing_advertise_frame radio now (c2, p2)) as [(Hq3 & _) _].
    assert (forall raw len,
              In (ConfigAdvDataRaw raw len)
                (snd (pairing_advertise radio now (c2, p2))) ->
              len = 25 /\ length raw = 25%nat) as Hadv.
    { destruct (phase_advertisement_shape c2 p2) as (_ & Hcl & Hlr & _).
      unfold pairing_advertise.
      fold (phase_advertisement c2 p2).
      intros raw len.
      unfold phase_advertisement in *.
      destruct (pairing_phase_ p2).
      - destruct (build_discovery_advertisement _) as [adv n]. cbn [fst] in *.
        destruct (adv_state_ c2); [| destruct (100 <=? _) |];
          try (simpl; tauto);
          (destruct (negb _); [| destruct (negb _)]); simpl;
          intro H; repeat (destruct H as [H | H]; try discriminate);
          try contradiction; injection H as <- <-; auto.
      - destruct (build_pairing_advertisement _ _ _) as [adv n]. cbn [fst] in *.
        destruct (adv_state_ c2); [| destruct (100 <=? _) |];
          try (simpl; tauto);
          (destruct (negb _); [| destruct (negb _)]); simpl;
          intro H; repeat (destruct H as [H | H]; try discriminate);
          try contradiction; injection H as <- <-; auto. }
    destruct (pairing_advertise radio now (c2, p2)) as [[c3 p3] ev3].
    cbn [fst snd] in *. split; [congruence |].
    intros raw len Hin. rewrite app_assoc in Hin.
    apply in_app_or in Hin. destruct Hin as [Hin | Hin].
    + destruct (Hstops _ _ Hin).
    + apply Hadv, Hin.
Qed.

(** The state a tick in pairing mode leaves, from its three steps. *)
Lemma loop_pairing_state : forall radio now c p,
  pairing_mode_ p = true ->
  let elapsed := wrap32 (now - pairing_start_time_ p) in
  let s2 := fst (pairing_auto_increment now
                   (fst (pairing_phase_transition now elapsed (c, p)))) in
  fst (loop radio now (c, p))
  = if 60000 <=? elapsed
    then (set_adv_state IDLE (fst s2), set_pairing_mode false (snd s2))
    else fst (pairing_advertise radio now s2).
Proof.
  intros radio now c p Hmode elapsed s2. subst s2.
  unfold loop. cbn [fst snd]. rewrite Hmode. fold elapsed.
  destruct (pairing_phase_transition now elapsed (c, p)) as [s1 ev1].
  cbn [fst]. destruct (pairing_auto_increment now s1) as [s2 ev2]. cbn [fst].
  destruct (60000 <=? elapsed); [reflexivity |].
  destruct (pairing_advertise radio now s2) as [s3 ev3]. reflexivity.
Qed.

Lemma pairing_steps_phase : forall now elapsed c p,
  let p2 := snd (fst (pairing_auto_increment now
                        (fst (pairing_phase_transition now elapsed (c, p))))) in
  match pairing_phase_ p with
  | PAIRING =>
      pairing_phase_ p2 = PAIRING
      /\ pairing_phase_start_ p2 = pairing_phase_start_ p
  | DISCOVERY =>
      if 4000 <=? elapsed
      then pairing_phase_ p2 = PAIRING /\ pairing_phase_start_ p2 = now
      else pairing_phase_ p2 = DISCOVERY
           /\ pairing_light_id_ p2 = pairing_light_id_ p
  end.
Proof.
  intros now elapsed c p. cbv zeta.
  unfold pairing_phase_transition.
  destruct (pairing_phase_ p) eqn:Hph.
  - destruct (4000 <=? elapsed); cbn [fst].
    + unfold pairing_auto_increment. cbn [pairing_phase_ enter_phase].
      destruct (negb _); cbn; auto.
    + unfold pairing_auto_increment. rewrite Hph. cbn. auto.
  - cbn [fst]. unfold pairing_auto_increment. rewrite Hph.
    destruct (negb _); cbn; auto.
Qed.

(** X17.  The phases only move forward.  A tick in the pairing phase
    stays there and keeps the phase's start time; a tick in the discovery
    phase stays there, with the light id untouched, until 4,000 ms have
    elapsed since the session started, and the first tick from then on
    enters the pairing phase and stamps its start. *)
Theorem pairing_phase_progress : forall radio now c p,
  pairing_mode_ p = true ->
  let elapsed := wrap32 (now - pairing_start_time_ p) in
  let p' := snd (fst (loop radio now (c, p))) in
  match pairing_phase_ p with
  | PAIRING =>
      pairing_phase_ p' = PAIRING
      /\ pairing_phase_start_ p' = pairing_phase_start_ p
  | DISCOVERY =>
      if 4000 <=? elapsed
      then pairing_phase_ p' = PAIRING /\ pairing_phase_start_ p' = now
      else pairing_phase_ p' = DISCOVERY
           /\ pairing_light_id_ p' = pairing_light_id_ p
  end.
Proof.
  intros radio now c p Hmode elapsed p'. subst p' elapsed.
  rewrite (loop_pairing_state radio now c p Hmode). cbv zeta.
  set (elapsed := wrap32 (now - pairing_start_time_ p)).
  pose proof (pairing_steps_phase now elapsed c p) as Hsteps. cbv zeta in Hsteps.
  set (s2 := fst (pairing_auto_increment now
                    (fst (pairing_phase_transition now elapsed (c, p))))) in *.
  match goal with
  | |- context [pairing_phase_ (snd ?r)] => set (r0 := r)
  end.
  assert (pairing_phase_ (snd r0) = pairing_phase_ (snd s2)
          /\ pairing_phase_start_ (snd r0) = pairing_phase_start_ (snd s2)
          /\ pairing_light_id_ (snd r0) = pairing_light_id_ (snd s2))
    as (R1 & R2 & R3).
  { subst r0. destruct (60000 <=? elapsed).
    - cbn. auto.
    - pose proof (pairing_advertise_frame radio now s2)
        as (_ & A1 & A2 & A3 & _). auto. }
  rewrite R1, R2, R3. exact Hsteps.
Qed.

Lemma loop_pairing_configured : forall radio now c p,
  pairing_mode_ p = true ->
  let elapsed := wrap32 (now - pairing_start_time_ p) in
  let s2 := fst (pairing_auto_increment now
                   (fst (pairing_phase_transition now elapsed (c, p)))) in
  configured_raw (snd (loop radio now (c, p)))
  = if 60000 <=? elapsed then None
    else configured_raw (snd (pairing_advertise radio now s2)).
Proof.
  intros radio now c p Hmode elapsed s2. subst s2.
  unfold loop. cbn [fst snd]. rewrite Hmode. fold elapsed.
  pose proof (pairing_phase_transition_frame now elapsed (c, p)) as [_ S1].
  destruct (pairing_phase_transition now elapsed (c, p)) as [s1 ev1].
  pose proof (pairing_auto_increment_frame now s1) as [_ S2].
  cbn [fst snd] in *.
  destruct (pairing_auto_increment now s1) as [s2 ev2]. cbn [fst snd] in *.
  destruct (60000 <=? elapsed).
  - cbn [snd]. rewrite app_assoc, configured_raw_stops
      by (apply only_stops_app; assumption). reflexivity.
  - destruct (pairing_advertise radio now s2) as [s3 ev3]. cbn [snd].
    rewrite app_assoc, configured_raw_stops
      by (apply only_stops_app; assumption). reflexivity.
Qed.

(** X18.  What is broadcast in which phase: every advertisement a tick
    in pairing mode hands to the radio starts with the flags structure and
    the manufacturer header for company 0xFFF0, followed by the command
    byte 0x4E when the tick ends in the discovery phase and 0x6E when it
    ends in the pairing phase. *)
Theorem pairing_advertisement_kind : forall radio now c p raw,
  pairing_mode_ p = true ->
  configured_raw (snd (loop radio now (c, p))) = Some raw ->
  firstn 7 raw = [2; 1; 26; 19; 255; 240; 255]
  /\ nth 7 raw 0
     = match pairing_phase_ (snd (fst (loop radio now (c, p)))) with
       | DISCOVERY => 78
       | PAIRING => 110
       end.
Proof.
  intros radio now c p raw Hmode.
  rewrite (loop_pairing_configured radio now c p Hmode).
  rewrite (loop_pairing_state radio now c p Hmode). cbv zeta.
  set (s2 := fst (pairing_auto_increment now _)).
  destruct (60000 <=? _); [discriminate |].
  destruct s2 as [c2 p2]. intro Hraw.
  apply pairing_advertise_event in Hraw. destruct Hraw as [-> _].
  pose proof (pairing_advertise_frame radio now (c2, p2)) as (_ & A1 & _).
  cbn [fst snd] in A1. rewrite A1.
  destruct (phase_advertisement_shape c2 p2) as (_ & _ & _ & Hpre & Hcmd).
  split; assumption.
Qed.

Lemma pairing_steps_idle : forall now elapsed c p,
  adv_state_ c = IDLE ->
  adv_state_ (fst (fst (pairing_auto_increment now
                          (fst (pairing_phase_transition now elapsed (c, p))))))
  = IDLE.
Proof.
  intros now elapsed c p H. unfold pairing_phase_transition.
  destruct (pairing_phase_ p) eqn:Hph; [destruct (4000 <=? elapsed) |];
    cbn [fst]; unfold pairing_auto_increment;
    cbn [pairing_phase_ enter_phase]; rewrite ?Hph;
    try (destruct (negb _)); cbn; auto.
Qed.

Lemma pairing_advertise_refused : forall radio now c p,
  adv_state_ c = IDLE ->
  radio_refuses radio ->
  adv_state_ (fst (fst (pairing_advertise radio now (c, p)))) = IDLE.
Proof.
  intros radio now c p H Hr. unfold pairing_advertise. rewrite H.
  destruct (match pairing_phase_ p with
            | DISCOVERY => _ | PAIRING => _ end) as [adv p'].
  destruct (negb (config_adv_data_raw radio _ _ =? ESP_OK)) eqn:E1;
    [exact H |].
  destruct (negb (start_advertising radio 32 64 =? ESP_OK)) eqn:E2;
    [exact H |].
  exfalso. apply negb_false_iff, Z.eqb_eq in E1, E2.
  destruct Hr as [Hr | Hr]; [eapply Hr, E1 | eapply Hr, E2].
Qed.

Lemma pairing_advertise_accepted : forall now c p,
  adv_state_ c = IDLE ->
  let r := pairing_advertise radio_ok now (c, p) in
  adv_state_ (fst (fst r)) = ADVERTISING
  /\ state_start_time_ (fst (fst r)) = now
  /\ configured_raw (snd r) <> None.
Proof.
  intros now c p H. cbv zeta. unfold pairing_advertise. rewrite H.
  destruct (match pairing_phase_ p with
            | DISCOVERY => _ | PAIRING => _ end) as [adv p'].
  cbn. repeat split. discriminate.
Qed.

(** X19.  In pairing mode a refused advertisement is tried again: when
    the radio refuses the advertisement of a tick that found the state
    [IDLE], the state stays [IDLE], and the next tick of the session, on a
    working radio, issues an advertisement and enters [ADVERTISING]. *)
Theorem pairing_radio_failure_retried : forall radio now now' c p,
  pairing_mode_ p = true ->
  adv_state_ c = IDLE ->
  wrap32 (now - pairing_start_time_ p) < 60000 ->
  wrap32 (now' - pairing_start_time_ p) < 60000 ->
  radio_refuses radio ->
  let s1 := fst (loop radio now (c, p)) in
  let r2 := loop radio_ok now' s1 in
  adv_state_ (fst s1) = IDLE
  /\ adv_state_ (fst (fst r2)) = ADVERTISING
  /\ state_start_time_ (fst (fst r2)) = now'
  /\ configured_raw (snd r2) <> None.
Proof.
  intros radio now now' c p Hmode Hidle Hnow Hnow' Hr s1 r2.
  assert (adv_state_ (fst s1) = IDLE
          /\ pairing_mode_ (snd s1) = true
          /\ pairing_start_time_ (snd s1) = pairing_start_time_ p)
    as (I1 & M1 & T1).
  { subst s1. split.
    - rewrite (loop_pairing_state radio now c p Hmode). cbv zeta.
      replace (60000 <=? wrap32 (now - pairing_start_time_ p)) with false
        by (symmetry; apply Z.leb_gt; exact Hnow).
      pose proof (pairing_steps_idle now
                    (wrap32 (now - pairing_start_time_ p)) c p Hidle) as Hi.
      destruct (fst (pairing_auto_increment now _)) as [c2 p2].
      apply pairing_advertise_refused; assumption.
    - destruct (loop_pairing_timeout radio now c p Hmode) as [_ Hstay].
      destruct (Hstay Hnow) as (Hm & Hs & _). split; assumption. }
  subst r2. destruct s1 as [c1 p1]. cbn [fst snd] in I1, M1, T1.
  rewrite (loop_pairing_state radio_ok now' c1 p1 M1).
  rewrite (loop_pairing_configured radio_ok now' c1 p1 M1). cbv zeta.
  rewrite T1.
  replace (60000 <=? wrap32 (now' - pairing_start_time_ p)) with false
    by (symmetry; apply Z.leb_gt; exact Hnow').
  pose proof (pairing_steps_idle now'
                (wrap32 (now' - pairing_start_time_ p)) c1 p1 I1) as Hi.
  destruct (fst (pairing_auto_increment now' _)) as [c2 p2].
  cbn [fst] in Hi.
  destruct (pairing_advertise_accepted now' c2 p2 Hi) as (A1 & A2 & A3).
  cbn [fst]. auto.
Qed.

(** X20.  The advertisement is re-issued every 100 ms: in a session
    that has not timed out, with no phase change or light id change due, a
    tick less than 100 ms after the last advertisement started does
    nothing at all, and a tick from 100 ms on stops the radio and hands it
    the next advertisement of the phase. *)
Theorem pairing_reissue_period : forall radio now c p,
  pairing_mode_ p = true ->
  wrap32 (now - pairing_start_time_ p) < 60000 ->
  settled now p ->
  adv_state_ c = ADVERTISING ->
  if 100 <=? wrap32 (now - state_start_time_ c)
  then exists ev,
         snd (loop radio now (c, p))
         = StopAdvertising
           :: ConfigAdvDataRaw (pairing_adv_data_raw (phase_advertisement c p))
                25 :: ev
  else loop radio now (c, p) = ((c, p), []).
Proof.
  intros radio now c p Hmode Hnow Hset Hadv.
  assert (pairing_phase_transition now (wrap32 (now - pairing_start_time_ p))
            (c, p) = ((c, p), [])) as E1.
  { unfold pairing_phase_transition. unfold settled in Hset.
    destruct (pairing_phase_ p); [| reflexivity].
    apply Z.leb_gt in Hset. rewrite Hset. reflexivity. }
  assert (pairing_auto_increment now (c, p) = ((c, p), [])) as E2.
  { unfold pairing_auto_increment. unfold settled in Hset.
    destruct (pairing_phase_ p); [reflexivity |].
    rewrite <- Hset, Z.eqb_refl. reflexivity. }
  unfold loop. cbn [fst snd]. rewrite Hmode, E1, E2.
  apply Z.leb_gt in Hnow. rewrite Hnow.
  destruct (phase_advertisement_shape c p) as (_ & Hcl & _).
  unfold pairing_advertise. rewrite Hadv.
  destruct (100 <=? wrap32 (now - state_start_time_ c)); [| reflexivity].
  unfold phase_advertisement in *.
  destruct (pairing_phase_ p).
  - destruct (build_discovery_advertisement _) as [adv n]. cbn [fst] in *.
    rewrite Hcl.
    destruct (negb _); [| destruct (negb _)]; cbn; eexists; reflexivity.
  - destruct (build_pairing_advertisement _ _ _) as [adv n]. cbn [fst] in *.
    rewrite Hcl.
    destruct (negb _); [| destruct (negb _)]; cbn; eexists; reflexivity.
Qed.

Lemma pairing_parks_queue_witness :
  let c := set_queue [mkCommand [1; 2; 3] 0 0] (fst example_pairing_state) in
  let p := snd example_pairing_state in
  queue_ (fst (fst (loop radio_ok 10000 (c, p)))) = queue_ c
  /\ forall raw len,
       In (ConfigAdvDataRaw raw len) (snd (loop radio_ok 10000 (c, p))) ->
       len = 25 /\ length raw = 25%nat.
Proof.
  intros c p. apply (pairing_parks_queue radio_ok 10000 c p). reflexivity.
Defined.

Lemma pairing_phase_progress_witness :
  let s := fst (pair_device 1000 1 1 (initial_controller, initial_pairing)) in
  (pairing_phase_ (snd (fst (loop radio_ok 4999 s))) = DISCOVERY
   /\ pairing_light_id_ (snd (fst (loop radio_ok 4999 s)))
      = pairing_light_id_ (snd s))
  /\ (pairing_phase_ (snd (fst (loop radio_ok 5000 s))) = PAIRING
      /\ pairing_phase_start_ (snd (fst (loop radio_ok 5000 s))) = 5000).
Proof.
  intro s. split.
  - apply (pairing_phase_progress radio_ok 4999 (fst s) (snd s)). reflexivity.
  - apply (pairing_phase_progress radio_ok 5000 (fst s) (snd s)). reflexivity.
Defined.

Lemma pairing_advertisement_kind_witness :
  let s := fst (pair_device 1000 1 1 (initial_controller, initial_pairing)) in
  let raw := [2; 1; 26; 19; 255; 240; 255; 78; 108; 90; 0; 52; 142; 137; 181;
              226; 56; 161; 168; 94; 54; 123; 196; 233; 151] in
  firstn 7 raw = [2; 1; 26; 19; 255; 240; 255]
  /\ nth 7 raw 0
     = match pairing_phase_ (snd (fst (loop radio_ok 1100 s))) with
       | DISCOVERY => 78
       | PAIRING => 110
       end.
Proof.
  intros s raw.
  apply (pairing_advertisement_kind radio_ok 1100 (fst s) (snd s) raw);
    reflexivity.
Defined.

Lemma pairing_radio_failure_retried_witness :
  let s := example_pairing_state in
  let radio := mkRadio (fun _ _ => 258) (fun _ _ => ESP_OK) in
  let s1 := fst (loop radio 10000 s) in
  let r2 := loop radio_ok 10010 s1 in
  adv_state_ (fst s1) = IDLE
  /\ adv_state_ (fst (fst r2)) = ADVERTISING
  /\ state_start_time_ (fst (fst r2)) = 10010
  /\ configured_raw (snd r2) <> None.
Proof.
  intros s radio.
  apply (pairing_radio_failure_retried radio 10000 10010 (fst s) (snd s));
    try reflexivity.
  left. intros raw len. discriminate.
Defined.

Lemma pairing_reissue_period_witness :
  let c := set_state_start_time 10000
             (set_adv_state ADVERTISING (fst example_pairing_state)) in
  let p := move_to_light 2 (snd example_pairing_state) in
  loop radio_ok 10050 (c, p) = ((c, p), [])
  /\ exists ev,
       snd (loop radio_ok 10100 (c, p))
       = StopAdvertising
         :: ConfigAdvDataRaw (pairing_adv_data_raw (phase_advertisement c p))
              25 :: ev.
Proof.
  intros c p. split.
  - apply (pairing_reissue_period radio_ok 10050 c p); reflexivity.
  - apply (pairing_reissue_period radio_ok 10100 c p); reflexivity.
Defined.

Lemma fold_wrap32_sum : forall l acc,
  wrap32 (fold_left (fun s b => wrap32 (s + b)) l acc)
  = wrap32 (acc + sum_bytes l).
Proof.
  induction l as [| b l IH]; intro acc; simpl.
  - f_equal. lia.
  - rewrite IH. unfold wrap32.
    rewrite Z.add_mod_idemp_l by lia. f_equal. lia.
Qed.

(** The placeholder CRC in closed form: 0x1234 times the sum of the bytes
    from index 13 on, modulo 2^24. *)
Lemma calculate_pairing_crc_sum : forall data,
  calculate_pairing_crc data
  = (4660 * sum_bytes (skipn 13 data)) mod 16777216.
Proof.
  intro data. unfold calculate_pairing_crc.
  change 16777215 with (Z.ones 24). rewrite Z.land_ones by lia.
  change (2 ^ 24) with 16777216.
  set (sum := fold_left _ _ 0).
  assert (wrap32 (sum * 4660) = wrap32 (4660 * sum_bytes (skipn 13 data))) as E.
  { pose proof (fold_wrap32_sum (skipn 13 data) 0) as H. fold sum in H.
    unfold wrap32 in *. rewrite Z.add_0_l in H.
    rewrite <- Z.mul_mod_idemp_l, H, Z.mul_mod_idemp_l by lia.
    f_equal. lia. }
  rewrite E. unfold wrap32.
  apply Z.mod_mod_divide. exists 256. reflexivity.
Qed.

Lemma sum_bytes_permutation : forall l l',
  Permutation l l' -> sum_bytes l = sum_bytes l'.
Proof.
  intros l l' H. induction H; simpl; lia.
Qed.

(** X21.  The placeholder CRC does not see the order of the bytes it
    covers: two advertisements whose bytes from index 13 on are a
    rearrangement of each other (a light id with its two bytes swapped, for
    one) get the same CRC. *)
Theorem calculate_pairing_crc_ignores_order : forall data data',
  Permutation (skipn 13 data) (skipn 13 data') ->
  calculate_pairing_crc data = calculate_pairing_crc data'.
Proof.
  intros data data' H. rewrite !calculate_pairing_crc_sum.
  rewrite (sum_bytes_permutation _ _ H). reflexivity.
Qed.

Lemma three_bytes : forall x,
  0 <= x < 16777216 ->
  wrap8 (Z.land (Z.shiftr x 16) 255) * 65536
  + wrap8 (Z.land (Z.shiftr x 8) 255) * 256
  + wrap8 (Z.land x 255) = x.
Proof.
  intros x Hx. unfold wrap8. change 255 with (Z.ones 8).
  rewrite !Z.land_ones, !Z.shiftr_div_pow2 by lia.
  change (2 ^ 8) with 256. change (2 ^ 16) with 65536.
  rewrite !Z.mod_mod by lia.
  Z.div_mod_to_equations. lia.
Qed.

(** X22.  The CRC of a pairing advertisement checks out: the
    advertisement has 32 bytes, and its last three, read as a big-endian
    number, are [calculate_pairing_crc] of the 29 bytes before them. *)
Theorem build_pairing_advertisement_crc : forall mesh_key light_id cnt,
  let adv := fst (build_pairing_advertisement mesh_key light_id cnt) in
  length adv = 32%nat
  /\ nth 29 adv 0 * 65536 + nth 30 adv 0 * 256 + nth 31 adv 0
     = calculate_pairing_crc (firstn 29 adv).
Proof.
  intros mesh_key light_id cnt adv. subst adv.
  unfold build_pairing_advertisement. cbn [fst].
  set (adv_data := adv_prefix ++ _).
  assert (length adv_data = 29%nat) as Hl by reflexivity.
  split.
  - rewrite length_app, Hl. reflexivity.
  - rewrite !app_nth2 by lia. rewrite Hl. cbn [Nat.sub nth].
    rewrite firstn_app, <- Hl, firstn_all, Nat.sub_diag. cbn [firstn].
    rewrite app_nil_r.
    apply three_bytes.
    rewrite calculate_pairing_crc_sum.
    apply Z.mod_pos_bound. lia.
Qed.

(** X23.  The discovery advertisement depends on its packet counter
    modulo 8 only, so at most eight different advertisements are ever
    broadcast; each has 32 bytes, all byte values. *)
Theorem build_discovery_advertisement_period : forall counter,
  fst (build_discovery_advertisement counter)
  = fst (build_discovery_advertisement (counter mod 8))
  /\ length (fst (build_discovery_advertisement counter)) = 32%nat
  /\ all_u8 (fst (build_discovery_advertisement counter)).
Proof.
  intro counter. unfold build_discovery_advertisement. cbn [fst].
  split; [| split].
  - rewrite (Z.mod_mod_divide counter 8 4) by (exists 2; reflexivity).
    rewrite Z.mod_mod by lia. reflexivity.
  - reflexivity.
  - unfold adv_prefix, all_u8. cbn [app].
    repeat (apply Forall_cons || apply Forall_nil);
      try apply wrap8_is_u8; unfold is_u8; lia.
Qed.

Lemma calculate_pairing_crc_ignores_order_witness :
  calculate_pairing_crc (adv_prefix ++ [110; 80; 1; 2])
  = calculate_pairing_crc (adv_prefix ++ [110; 80; 2; 1]).
Proof.
  apply (calculate_pairing_crc_ignores_order (adv_prefix ++ [110; 80; 1; 2])
           (adv_prefix ++ [110; 80; 2; 1])).
  simpl. apply perm_skip, perm_skip, perm_swap.
Defined.
